(** * glib-client-gen: the GLib client wrapper generator of telepathy-glib

    A shallow embedding of [tools/glib-client-gen.py].  The generator walks a
    [xml.dom.minidom] tree, appends lines to two buffers (the header and the
    body) and finally writes both, joined by newlines, to [basename.h] and
    [basename.c].

    Strings are byte strings; [lower] and [upper] are the ASCII case maps
    (Python applies the same maps on ASCII text). *)

From Stdlib Require Import Ascii String.
From stdpp Require Import base decidable option list strings gmap pretty sorting.

Set Warnings "-register-all".


(** ** Python string operations used by the generator *)

Module Py.

(** The two characters that cannot be written inside a string literal. *)
Definition nl : string := String (ascii_of_nat 10) EmptyString.
Definition dq : string := String (ascii_of_nat 34) EmptyString.

Definition is_upper (c : ascii) : bool :=
  let n := nat_of_ascii c in (65 <=? n)%nat && (n <=? 90)%nat.
Definition is_lower (c : ascii) : bool :=
  let n := nat_of_ascii c in (97 <=? n)%nat && (n <=? 122)%nat.

Definition lower_char (c : ascii) : ascii :=
  if is_upper c then ascii_of_nat (nat_of_ascii c + 32) else c.
Definition upper_char (c : ascii) : ascii :=
  if is_lower c then ascii_of_nat (nat_of_ascii c - 32) else c.

Fixpoint map_chars (f : ascii -> ascii) (s : string) : string :=
  match s with
  | EmptyString => EmptyString
  | String c r => String (f c) (map_chars f r)
  end.

(** [s.lower()] and [s.upper()] of an ASCII string: the letters [A] to [Z]
    and [a] to [z] change case, every other character stays.  (On a byte
    string Python maps bytes in this way; on a unicode string, such as an
    attribute minidom returns, it does so for the characters below 128.) *)
Definition lower : string -> string := map_chars lower_char.
Definition upper : string -> string := map_chars upper_char.

(** [s.replace(c, '')] for a one-character [c]. *)
Fixpoint remove_char (c : ascii) (s : string) : string :=
  match s with
  | EmptyString => EmptyString
  | String d r => if Ascii.eqb c d then remove_char c r else String d (remove_char c r)
  end.

(** [sep.join(lines)]. *)
Fixpoint join (sep : string) (lines : list string) : string :=
  match lines with
  | [] => ""
  | [l] => l
  | l :: rest => l +:+ sep +:+ join sep rest
  end.

(** ['%u' % n] for a non-negative integer. *)
Definition fmt_u (n : nat) : string := pretty n.

(** [needle in s], used to inspect generated text. *)
Fixpoint starts_with (p s : string) : bool :=
  match p, s with
  | EmptyString, _ => true
  | String a p', String b s' => Ascii.eqb a b && starts_with p' s'
  | String _ _, EmptyString => false
  end.
Fixpoint contains (needle s : string) : bool :=
  starts_with needle s ||
  match s with
  | EmptyString => false
  | String _ s' => contains needle s'
  end.

End Py.

(** ** The part of [xml.dom.minidom] the generator uses *)

Module minidom.

Inductive Node : Type :=
| Document (childNodes : list Node)
| Element (tagName : string) (attributes : gmap string string) (childNodes : list Node)
| Text (data : string).

Definition childNodes (n : Node) : list Node :=
  match n with
  | Document cs => cs
  | Element _ _ cs => cs
  | Text _ => []
  end.

(** [node.getAttribute(attname)]: the value, or the empty string when the
    attribute is absent. *)
Definition getAttribute (n : Node) (attname : string) : string :=
  match n with
  | Element _ attrs _ => default "" (attrs !! attname)
  | _ => ""
  end.

Definition matches (name : string) (n : Node) : bool :=
  match n with
  | Element tag _ _ => bool_decide (name = "*") || bool_decide (tag = name)
  | _ => false
  end.

(** What [_get_elements_by_tagName_helper] appends for one child [node] of
    the parent: the child itself when it is a matching element, then the
    matches below it, in document order. *)
Fixpoint get_elements_by_tagName_helper (name : string) (node : Node) : list Node :=
  let below :=
    (fix go (cs : list Node) : list Node :=
       match cs with
       | [] => []
       | c :: cs' => get_elements_by_tagName_helper name c ++ go cs'
       end) in
  (if matches name node then [node] else []) ++
  match node with
  | Document cs => below cs
  | Element _ _ cs => below cs
  | Text _ => []
  end.

(** [parent.getElementsByTagName(name)]: the matching descendants of
    [parent] (never [parent] itself), as a fresh list. *)
Definition getElementsByTagName (parent : Node) (name : string) : list Node :=
  flat_map (get_elements_by_tagName_helper name) (childNodes parent).

End minidom.
Export minidom.

(** ** The helpers imported from [libglibcodegen]

    [from libglibcodegen import Signature, type_to_gtype, cmp_by_name,
    camelcase_to_lower]: the module is not among the sources.  The generator
    is written against the two helpers it calls on every argument and member
    name; the comparator handed to [list.sort] is modelled below. *)

(** What [type_to_gtype] returns: [(ctype, gtype, marshaller, pointer)]. *)
Definition gtype_info : Type := string * string * string * bool.

Class Libglibcodegen := {
  (** [type_to_gtype(s)]; [None] when the call raises. *)
  type_to_gtype : string -> option gtype_info;
  camelcase_to_lower : string -> string
}.

Module libglibcodegen.

(** Modelled from the spec: [type_to_gtype] of libglibcodegen, the type
    mapping table (wire signature to storage type, marshalling tag and
    pointer flag).  The spec asks for integers of several widths, strings,
    object paths, byte arrays and booleans, pointer-passed for strings and
    arrays and by value for integers and booleans, and for a failure on
    every signature absent from the table; the fields are laid out in the
    four-field shape [do_method] destructures and carry the GLib names. *)
Definition type_to_gtype (s : string) : option gtype_info :=
  if bool_decide (s = "y") then Some ("guchar ", "G_TYPE_UCHAR", "UCHAR", false)
  else if bool_decide (s = "b") then Some ("gboolean ", "G_TYPE_BOOLEAN", "BOOLEAN", false)
  else if bool_decide (s = "n") then Some ("gint ", "G_TYPE_INT", "INT", false)
  else if bool_decide (s = "q") then Some ("guint ", "G_TYPE_UINT", "UINT", false)
  else if bool_decide (s = "i") then Some ("gint ", "G_TYPE_INT", "INT", false)
  else if bool_decide (s = "u") then Some ("guint ", "G_TYPE_UINT", "UINT", false)
  else if bool_decide (s = "x") then Some ("gint64 ", "G_TYPE_INT64", "INT64", false)
  else if bool_decide (s = "t") then Some ("guint64 ", "G_TYPE_UINT64", "UINT64", false)
  else if bool_decide (s = "s") then Some ("gchar *", "G_TYPE_STRING", "STRING", true)
  else if bool_decide (s = "o") then Some ("gchar *", "DBUS_TYPE_G_OBJECT_PATH", "BOXED", true)
  else if bool_decide (s = "ay") then Some ("GArray *", "DBUS_TYPE_G_UCHAR_ARRAY", "BOXED", true)
  else None.

(** Modelled from the spec: [camelcase_to_lower] of libglibcodegen, the
    identifier normalizer "CamelCase to lower_snake_case", a total function:
    every upper-case letter is lowered, and one that is not at the start of
    the name is preceded by an underscore. *)
Fixpoint snake_tail (s : string) : string :=
  match s with
  | EmptyString => EmptyString
  | String c r =>
      if Py.is_upper c then String "_" (String (Py.lower_char c) (snake_tail r))
      else String c (snake_tail r)
  end.
Definition camelcase_to_lower (s : string) : string :=
  match s with
  | EmptyString => EmptyString
  | String c r => String (Py.lower_char c) (snake_tail r)
  end.

(** Modelled from the spec: [cmp_by_name] of libglibcodegen, the comparator
    given to [ifaces.sort]: "a stable, deterministic comparator over
    interface name (case-sensitive lexicographic)".  It compares the [name]
    attributes of the two nodes character code by character code. *)
Definition cmp_by_name (node1 node2 : Node) : comparison :=
  String.compare (getAttribute node1 "name") (getAttribute node2 "name").

End libglibcodegen.

Definition spec_libglibcodegen : Libglibcodegen :=
  {| type_to_gtype := libglibcodegen.type_to_gtype;
     camelcase_to_lower := libglibcodegen.camelcase_to_lower |}.

(** ** [list.sort(cmp)]

    Python's sort is stable and, with a comparison function, places [x]
    before [y] only when [cmp(y, x) < 0] fails for every [y] that preceded
    [x].  Insertion from the right end is the same function of the list. *)

Section list_sort.
Context {A : Type} (cmp : A -> A -> comparison).

Definition cmp_lt (x y : A) : bool :=
  match cmp x y with Lt => true | _ => false end.

Fixpoint sort_insert (x : A) (l : list A) : list A :=
  match l with
  | [] => [x]
  | y :: l' => if cmp_lt y x then y :: sort_insert x l' else x :: y :: l'
  end.

Fixpoint list_sort (l : list A) : list A :=
  match l with
  | [] => []
  | x :: l' => sort_insert x (list_sort l')
  end.
End list_sort.

(** ** The generator object and its methods *)

Record Generator : Type := mkGenerator {
  dom : Node;
  __header : list string;
  __body : list string;
  prefix_lc : string;
  prefix_uc : string;
  prefix_mc : string;
  basename : string
}.

(** [Generator.__init__]. *)
Definition init (dom : Node) (prefix basename : string) : Generator :=
  {| dom := dom;
     __header := [];
     __body := [];
     prefix_lc := Py.lower prefix;
     prefix_uc := Py.upper prefix;
     prefix_mc := Py.remove_char "_" prefix;
     basename := basename |}.

(** Methods run on the object and may raise: a state and error monad. *)
Definition Gen (A : Type) : Type := Generator -> option (A * Generator).

Definition gen_ret {A} (x : A) : Gen A := fun self => Some (x, self).
Definition gen_bind {A B} (m : Gen A) (k : A -> Gen B) : Gen B :=
  fun self => match m self with
              | Some (x, self') => k x self'
              | None => None
              end.
(** An uncaught exception. *)
Definition raise {A} : Gen A := fun _ => None.
Definition lift {A} (o : option A) : Gen A :=
  fun self => match o with Some x => Some (x, self) | None => None end.
(** Reading an attribute of [self]. *)
Definition attr {A} (f : Generator -> A) : Gen A := fun self => Some (f self, self).

Declare Scope gen_scope.
Delimit Scope gen_scope with gen.
Bind Scope gen_scope with Gen.
Notation "x <- m ;; k" := (gen_bind m (fun x => k))
  (at level 100, m at next level, k at level 200, right associativity) : gen_scope.
Notation "m ;; k" := (gen_bind m (fun _ => k))
  (at level 100, k at level 200, right associativity) : gen_scope.

(** [for x in l: f(x)]. *)
Fixpoint for_each {A} (l : list A) (f : A -> Gen unit) : Gen unit :=
  match l with
  | [] => gen_ret tt
  | x :: l' => gen_bind (f x) (fun _ => for_each l' f)
  end.

(** [append] on the two buffers. *)
Definition push (self : Generator) (hs bs : list string) : Generator :=
  {| dom := dom self;
     __header := __header self ++ hs;
     __body := __body self ++ bs;
     prefix_lc := prefix_lc self;
     prefix_uc := prefix_uc self;
     prefix_mc := prefix_mc self;
     basename := basename self |}.

Definition h (s : string) : Gen unit := fun self => Some (tt, push self [s] []).
Definition b (s : string) : Gen unit := fun self => Some (tt, push self [] [s]).

Section generator.
Context `{Libglibcodegen}.
Local Open Scope gen_scope.

(** One element of [in_args] or [out_args]: [(name, info, tp_type)]. *)
Definition arg_entry : Type := string * gtype_info * string.

(** The local variables of the first loop of [do_method]. *)
Record arg_locals : Type := mkLocals {
  ret_count : nat;
  in_args : list arg_entry;
  out_args : list arg_entry
}.

(** The body of [for arg in method.getElementsByTagName('arg')]. *)
Definition arg_step (st : arg_locals) (arg : Node) : option arg_locals :=
  let name := getAttribute arg "name" in
  let direction := getAttribute arg "direction" in
  let type := getAttribute arg "type" in
  let tp_type := getAttribute arg "tp:type" in
  let '(name, ret_count') :=
    if negb (bool_decide (direction = "out")) then ("in_" +:+ name, ret_count st)
    else if bool_decide (name = "")
         then ("out" +:+ Py.fmt_u (ret_count st), S (ret_count st))
         else ("out_" +:+ name, ret_count st) in
  info ← type_to_gtype type;
  if negb (bool_decide (direction = "out"))
  then Some (mkLocals ret_count' (in_args st ++ [(name, info, tp_type)]) (out_args st))
  else Some (mkLocals ret_count' (in_args st) (out_args st ++ [(name, info, tp_type)])).

Fixpoint arg_loop (st : arg_locals) (args : list Node) : option arg_locals :=
  match args with
  | [] => Some st
  | arg :: rest => st' ← arg_step st arg; arg_loop st' rest
  end.

(** [do_method], up to the comment [# Synchronous stub]. *)
Definition collect_args (method : Node) : option arg_locals :=
  arg_loop (mkLocals 0 [] []) (getElementsByTagName method "arg").

Definition do_signal (signal : Node) : Gen unit :=
  (* FIXME: implement connect_to_signal *)
  gen_ret tt.

Definition do_method (iface : string) (method : Node) : Gen unit :=
  let iface_lc := Py.lower iface in
  let member := getAttribute method "name" in
  let member_lc := camelcase_to_lower member in
  let member_uc := Py.upper member_lc in
  locals <- lift (collect_args method) ;;
  self_prefix_lc <- attr prefix_lc ;;
  h ("gboolean " +:+ self_prefix_lc +:+ "_" +:+ iface_lc +:+ "_block_on_" +:+ member_lc
       +:+ " (gpointer *proxy,") ;;
  b ("gboolean" +:+ Py.nl +:+ self_prefix_lc +:+ "_" +:+ iface_lc +:+ "_block_on_"
       +:+ member_lc +:+ " (gpointer *proxy,") ;;
  for_each (in_args locals) (fun arg =>
    let '(name, info, tp_type) := arg in
    let '(ctype, gtype, marshaller, pointer) := info in
    let const := if (pointer : bool) then "const " else "" in
    h ("    " +:+ const +:+ ctype +:+ name +:+ ",") ;;
    b ("    " +:+ const +:+ ctype +:+ name +:+ ",")) ;;
  for_each (out_args locals) (fun arg =>
    let '(name, info, tp_type) := arg in
    let '(ctype, gtype, marshaller, pointer) := info in
    h ("    " +:+ ctype +:+ "*" +:+ name +:+ ",") ;;
    b ("    " +:+ ctype +:+ "*" +:+ name +:+ ",")) ;;
  h "    GError **error);" ;;
  h "" ;;
  b "    GError **error)" ;;
  b "{" ;;
  b "  DBusGProxy *iface = tp_proxy_get_interface (" ;;
  b "      TP_PROXY (proxy)," ;;
  b ("      TP_IFACE_QUARK_" +:+ Py.upper iface_lc +:+ ",") ;;
  b "      error);" ;;
  b "" ;;
  b "  if (iface == NULL)" ;;
  b "    return FALSE;" ;;
  b "" ;;
  b ("  return dbus_g_proxy_call (iface, " +:+ Py.dq +:+ member +:+ Py.dq +:+ ", error,") ;;
  b "      /* in arguments */" ;;
  for_each (in_args locals) (fun arg =>
    let gtype := arg.1.2.1.1.2 in
    let name := arg.1.1 in
    b ("      " +:+ gtype +:+ ", " +:+ name +:+ ",")) ;;
  b "      G_TYPE_INVALID," ;;
  b "      /* out arguments */" ;;
  for_each (out_args locals) (fun arg =>
    let gtype := arg.1.2.1.1.2 in
    let name := arg.1.1 in
    b ("      " +:+ gtype +:+ ", " +:+ name +:+ ",")) ;;
  b "      G_TYPE_INVALID);" ;;
  b "}" ;;
  b "" ;;
  (* FIXME: implement asynchronous calls *)
  b "" ;;
  h "".

(** The first loop of [do_signal_add]: the marshalling tags of the
    arguments, or an exception from [type_to_gtype]. *)
Fixpoint signal_gtypes (gtypes : list string) (args : list Node) : option (list string) :=
  match args with
  | [] => Some gtypes
  | i :: rest =>
      let name := getAttribute i "name" in
      let type := getAttribute i "type" in
      info ← type_to_gtype type;
      signal_gtypes (gtypes ++ [info.1.1.2]) rest
  end.

Definition do_signal_add (signal : Node) : Gen unit :=
  gtypes <- lift (signal_gtypes [] (getElementsByTagName signal "arg")) ;;
  h ("  dbus_g_proxy_add_signal (proxy, " +:+ Py.dq +:+ getAttribute signal "name"
       +:+ Py.dq +:+ ",") ;;
  for_each gtypes (fun gtype => h ("      " +:+ gtype +:+ ",")) ;;
  h "      G_TYPE_INVALID);".

Definition do_interface (node : Node) : Gen unit :=
  let ifaces := getElementsByTagName node "interface" in
  (* assert len(ifaces) == 1 *)
  (if bool_decide (length ifaces = 1) then gen_ret tt else raise) ;;
  let name := Py.remove_char "/" (getAttribute node "name") in
  let signals := getElementsByTagName node "signal" in
  let methods := getElementsByTagName node "method" in
  self_prefix_lc <- attr prefix_lc ;;
  h "static inline void" ;;
  h (self_prefix_lc +:+ "_add_signals_for_" +:+ Py.lower name +:+ " (DBusGProxy *proxy)") ;;
  h "{" ;;
  for_each signals do_signal_add ;;
  h "}" ;;
  h "" ;;
  h "" ;;
  for_each signals do_signal ;;
  for_each methods (do_method name).

(** The sorted node list of [__call__]. *)
Definition sorted_ifaces (dom : Node) : list Node :=
  list_sort libglibcodegen.cmp_by_name (getElementsByTagName dom "node").

(** [Generator.__call__], up to the two [open(...).write(...)]. *)
Definition call_emit : Gen unit :=
  h "#include <dbus/dbus-glib.h>" ;;
  h "#include <telepathy-glib/proxy.h>" ;;
  h "#include <telepathy-glib/interfaces.h>" ;;
  h "" ;;
  self_basename <- attr basename ;;
  b ("#include " +:+ Py.dq +:+ self_basename +:+ ".h" +:+ Py.dq) ;;
  b "" ;;
  self_dom <- attr dom ;;
  for_each (sorted_ifaces self_dom) do_interface.

(** The file system: file name to content, each name a file of its own;
    [open(name, 'w').write(content)] when neither call raises. *)
Definition write_file (name content : string) (fs : gmap string string)
  : gmap string string := <[name := content]> fs.

(** [Generator.__call__] when [open] and [write] do not raise: runs on the
    object [self] and the file system; [None] is an exception of the
    generation, raised before any file is opened.  The runs in which [open]
    or [write] raises are those of [runs] below. *)
Definition call (self : Generator) (fs : gmap string string)
  : option (Generator * gmap string string) :=
  match call_emit self with
  | None => None
  | Some (_, self') =>
      let fs := write_file (basename self' +:+ ".h") (Py.join Py.nl (__header self')) fs in
      let fs := write_file (basename self' +:+ ".c") (Py.join Py.nl (__body self')) fs in
      Some (self', fs)
  end.

(** The script: [Generator(dom, argv[1], argv[2])()]. *)
Definition main (dom : Node) (prefix basename : string) (fs : gmap string string)
  : option (gmap string string) :=
  snd <$> call (init dom prefix basename) fs.

End generator.

(** ** The layout of the generated text

    Closed forms of what the methods append, used to state the results. *)

Section layout.
Context `{Libglibcodegen}.

Definition entry_name (e : arg_entry) : string := e.1.1.
Definition entry_info (e : arg_entry) : gtype_info := e.1.2.
Definition info_ctype (i : gtype_info) : string := i.1.1.1.
Definition info_gtype (i : gtype_info) : string := i.1.1.2.
Definition info_pointer (i : gtype_info) : bool := i.2.

(** One parameter line of a stub, for an in-argument and an out-argument. *)
Definition in_param (e : arg_entry) : string :=
  "    " +:+ (if info_pointer (entry_info e) then "const " else "")
    +:+ info_ctype (entry_info e) +:+ entry_name e +:+ ",".
Definition out_param (e : arg_entry) : string :=
  "    " +:+ info_ctype (entry_info e) +:+ "*" +:+ entry_name e +:+ ",".

(** One line of the call payload: the marshalling tag and the variable. *)
Definition payload_item (e : arg_entry) : string :=
  "      " +:+ info_gtype (entry_info e) +:+ ", " +:+ entry_name e +:+ ",".

(** The name of a stub and the start of its parameter list. *)
Definition stub_open (pfx iface member : string) : string :=
  pfx +:+ "_" +:+ Py.lower iface +:+ "_block_on_" +:+ camelcase_to_lower member
    +:+ " (gpointer *proxy,".

Definition param_lines (ins outs : list arg_entry) : list string :=
  (in_param <$> ins) ++ (out_param <$> outs).

Definition call_payload (ins outs : list arg_entry) : list string :=
  ["      /* in arguments */"] ++ (payload_item <$> ins) ++
  ["      G_TYPE_INVALID,"; "      /* out arguments */"] ++ (payload_item <$> outs) ++
  ["      G_TYPE_INVALID);"].

(** What [do_method] appends to the header and to the body. *)
Definition method_decl (pfx iface member : string) (ins outs : list arg_entry)
  : list string :=
  ["gboolean " +:+ stub_open pfx iface member] ++
  param_lines ins outs ++ ["    GError **error);"; ""; ""].

Definition method_defn (pfx iface member : string) (ins outs : list arg_entry)
  : list string :=
  ["gboolean" +:+ Py.nl +:+ stub_open pfx iface member] ++
  param_lines ins outs ++
  ["    GError **error)";
   "{";
   "  DBusGProxy *iface = tp_proxy_get_interface (";
   "      TP_PROXY (proxy),";
   "      TP_IFACE_QUARK_" +:+ Py.upper (Py.lower iface) +:+ ",";
   "      error);";
   "";
   "  if (iface == NULL)";
   "    return FALSE;";
   "";
   "  return dbus_g_proxy_call (iface, " +:+ Py.dq +:+ member +:+ Py.dq +:+ ", error,"] ++
  call_payload ins outs ++ ["}"; ""; ""].

(** What [do_signal_add] appends to the header. *)
Definition signal_lines (name : string) (gtypes : list string) : list string :=
  ["  dbus_g_proxy_add_signal (proxy, " +:+ Py.dq +:+ name +:+ Py.dq +:+ ","] ++
  ((fun gtype => "      " +:+ gtype +:+ ",") <$> gtypes) ++ ["      G_TYPE_INVALID);"].

(** The registration function of one interface. *)
Definition registration_block (pfx name : string) (signals : list (list string))
  : list string :=
  ["static inline void";
   pfx +:+ "_add_signals_for_" +:+ Py.lower name +:+ " (DBusGProxy *proxy)";
   "{"] ++ concat signals ++ ["}"; ""; ""].

(** The arguments of a method as the schema declares them. *)
Definition method_args (method : Node) : list Node :=
  getElementsByTagName method "arg".

Definition is_out (arg : Node) : Prop := getAttribute arg "direction" = "out".
Definition unnamed (arg : Node) : Prop := getAttribute arg "name" = "".

#[global] Instance is_out_dec arg : Decision (is_out arg).
Proof. unfold is_out. apply _. Defined.
#[global] Instance unnamed_dec arg : Decision (unnamed arg).
Proof. unfold unnamed. apply _. Defined.

(** The schema's in-arguments and out-arguments, each in declaration order. *)
Definition ins_of (args : list Node) : list Node := filter (fun a => ~ is_out a) args.
Definition outs_of (args : list Node) : list Node := filter is_out args.

(** The generated name of an in-argument. *)
Definition in_name (arg : Node) : string := "in_" +:+ getAttribute arg "name".

(** The generated name of the out-argument [arg] at position [j] of the
    out-arguments [outs], when the counter stood at [k] before the first:
    the ordinal counts the unnamed out-arguments before position [j]. *)
Definition out_name (k : nat) (outs : list Node) (j : nat) (arg : Node) : string :=
  if decide (unnamed arg)
  then "out" +:+ Py.fmt_u (k + length (filter unnamed (take j outs)))
  else "out_" +:+ getAttribute arg "name".

Definition out_names (k : nat) (outs : list Node) : list string :=
  imap (out_name k outs) outs.

(** The entry [e] carries the mapping and the semantic type of [arg]. *)
Definition resolves (arg : Node) (e : arg_entry) : Prop :=
  type_to_gtype (getAttribute arg "type") = Some (entry_info e) /\
  e.2 = getAttribute arg "tp:type".

(** Every wire type among [args] is in the mapping table. *)
Definition all_resolve (args : list Node) : Prop :=
  Forall (fun a => is_Some (type_to_gtype (getAttribute a "type"))) args.

(** [m], run on [self], appends [hs] to the header and [bs] to the body. *)
Definition emits (m : Gen unit) (self : Generator) (hs bs : list string) : Prop :=
  m self = Some (tt, push self hs bs).

(** [m], run on [self], raises when [t] is [None] and otherwise appends
    the two lists of lines of [t]. *)
Definition runs_as (m : Gen unit) (self : Generator)
    (t : option (list string * list string)) : Prop :=
  m self = (fun t => (tt, push self t.1 t.2)) <$> t.

(** The marshalling tags of the arguments of a signal. *)
Definition signal_tag (arg : Node) : option string :=
  info_gtype <$> type_to_gtype (getAttribute arg "type").
Definition signal_text (signal : Node) : option (list string) :=
  signal_lines (getAttribute signal "name") <$> mapM signal_tag (method_args signal).

(** The declaration and the definition of the stub of a method. *)
Definition method_text (pfx iface : string) (method : Node)
  : option (list string * list string) :=
  (fun locals =>
     (method_decl pfx iface (getAttribute method "name") (in_args locals) (out_args locals),
      method_defn pfx iface (getAttribute method "name") (in_args locals) (out_args locals)))
  <$> collect_args method.

(** The name [do_interface] gives the interface of a node. *)
Definition iface_name (node : Node) : string :=
  Py.remove_char "/" (getAttribute node "name").

(** The header lines and the body lines of one node. *)
Definition interface_text (pfx : string) (node : Node)
  : option (list string * list string) :=
  if bool_decide (length (getElementsByTagName node "interface") = 1) then
    sigs ← mapM signal_text (getElementsByTagName node "signal");
    stubs ← mapM (method_text pfx (iface_name node)) (getElementsByTagName node "method");
    Some (registration_block pfx (iface_name node) sigs ++ concat stubs.*1,
          concat stubs.*2)
  else None.

Definition header_prelude : list string :=
  ["#include <dbus/dbus-glib.h>"; "#include <telepathy-glib/proxy.h>";
   "#include <telepathy-glib/interfaces.h>"; ""].
Definition body_prelude (basename : string) : list string :=
  ["#include " +:+ Py.dq +:+ basename +:+ ".h" +:+ Py.dq; ""].

(** The lines of the two artifacts. *)
Definition call_text (dom : Node) (pfx basename : string)
  : option (list string * list string) :=
  texts ← mapM (interface_text pfx) (sorted_ifaces dom);
  Some (header_prelude ++ concat texts.*1, body_prelude basename ++ concat texts.*2).

End layout.

(** ** The order of the interfaces *)

Definition node_name (node : Node) : string := getAttribute node "name".

(** Case-sensitive lexicographic order on the names of two nodes. *)
Definition name_le (node1 node2 : Node) : Prop :=
  String.le (node_name node1) (node_name node2).


(** ** Lines of the registration function *)

(** [line] is neither the first line of a registration function nor the
    start of a signal registration. *)
Definition not_registration_line (line : string) : Prop :=
  line <> "static inline void" /\
  Py.starts_with "  dbus_g_proxy_add_signal" line = false.

(** ** Rearranging arguments *)

(** The list [l] read at the positions [sigma], in the order of [sigma]; a
    permutation of [l] when [sigma] is a permutation of its positions
    [0 .. length l - 1]. *)
Fixpoint rearrange {A} (sigma : list nat) (l : list A) : list A :=
  match sigma with
  | [] => []
  | i :: sigma' =>
      match l !! i with
      | Some x => x :: rearrange sigma' l
      | None => rearrange sigma' l
      end
  end.

(** The lines [do_method] appends to the header and to the body of a fresh
    generator object. *)
Definition emitted `{Libglibcodegen} (prefix iface : string) (method : Node)
  : option (list string * list string) :=
  (fun r => (__header r.2, __body r.2))
  <$> do_method iface method (init (Document []) prefix "gen").

(** ** Schemas used as examples *)

Module Examples.

Definition elem (tag : string) (attrs : list (string * string)) (children : list Node)
  : Node := Element tag (list_to_map attrs) children.

Definition arg (name type direction : string) : Node :=
  elem "arg" [("name", name); ("type", type); ("direction", direction)] [].

(** An argument element without a [name] attribute. *)
Definition unnamed_arg (type direction : string) : Node :=
  elem "arg" [("type", type); ("direction", direction)] [].

Definition method (name : string) (args : list Node) : Node :=
  elem "method" [("name", name)] args.

Definition signal (name : string) (args : list Node) : Node :=
  elem "signal" [("name", name)] args.

(** [<node name=...><interface name=...>members</interface></node>] *)
Definition iface_node (name : string) (members : list Node) : Node :=
  elem "node" [("name", name)]
    [elem "interface" [("name", "org.freedesktop.Telepathy." +:+ name)] members].

Definition spec_document (nodes : list Node) : Node :=
  Document [elem "tp:spec" [] nodes].

(** A method returning a string and an unsigned integer, both unnamed,
    and the same method with the two out-arguments swapped. *)
Definition get_su : Node :=
  method "Get" [unnamed_arg "s" "out"; unnamed_arg "u" "out"].
Definition get_us : Node :=
  method "Get" [unnamed_arg "u" "out"; unnamed_arg "s" "out"].

(** The argument lists [do_method] builds for [get_su]. *)
Definition locals_su : arg_locals :=
  mkLocals 2 []
    [("out0", ("gchar *", "G_TYPE_STRING", "STRING", true), "");
     ("out1", ("guint ", "G_TYPE_UINT", "UINT", false), "")].

(** A method with in-arguments [a], [b] and out-argument [c], and the same
    method with the in-arguments swapped. *)
Definition call_ab_c : Node :=
  method "Call" [arg "a" "s" "in"; arg "b" "u" "in"; arg "c" "i" "out"].
Definition call_ba_c : Node :=
  method "Call" [arg "b" "u" "in"; arg "a" "s" "in"; arg "c" "i" "out"].

(** The argument lists [do_method] builds for the two. *)
Definition locals_ab_c : arg_locals :=
  mkLocals 0
    [("in_a", ("gchar *", "G_TYPE_STRING", "STRING", true), "");
     ("in_b", ("guint ", "G_TYPE_UINT", "UINT", false), "")]
    [("out_c", ("gint ", "G_TYPE_INT", "INT", false), "")].
Definition locals_ba_c : arg_locals :=
  mkLocals 0
    [("in_b", ("guint ", "G_TYPE_UINT", "UINT", false), "");
     ("in_a", ("gchar *", "G_TYPE_STRING", "STRING", true), "")]
    [("out_c", ("gint ", "G_TYPE_INT", "INT", false), "")].

(** One interface [Example] with one method [DoThing], taking an [int32]
    named [value] and returning an unnamed string. *)
Definition do_thing : Node :=
  method "DoThing" [arg "value" "i" "in"; arg "" "s" "out"].
Definition example_schema : Node :=
  spec_document [iface_node "Example" [do_thing]].

(** One interface with a signal of two arguments and a method. *)
Definition signal_schema : Node :=
  spec_document
    [iface_node "Example"
       [signal "Changed" [arg "id" "u" ""; arg "text" "s" ""];
        method "Ping" []]].

(** A method with two unnamed in-arguments. *)
Definition set_pair : Node :=
  method "SetPair" [unnamed_arg "u" "in"; unnamed_arg "s" "in"].
Definition locals_set_pair : arg_locals :=
  mkLocals 0
    [("in_", ("guint ", "G_TYPE_UINT", "UINT", false), "");
     ("in_", ("gchar *", "G_TYPE_STRING", "STRING", true), "")]
    [].

(** Arguments whose [direction] is absent, or differs from ["out"] in case
    or spacing, next to a plain in-argument and a plain out-argument. *)
Definition mixed_directions : Node :=
  method "Mixed"
    [arg "a" "s" "in";
     arg "b" "s" "out";
     elem "arg" [("name", "c"); ("type", "s")] [];
     arg "d" "s" "OUT";
     arg "e" "s" " out";
     arg "f" "s" "inout"].

(** [do_thing] with a semantic type on each argument and a docstring. *)
Definition do_thing_annotated : Node :=
  method "DoThing"
    [elem "arg" [("name", "value"); ("type", "i"); ("direction", "in");
                 ("tp:type", "Contact_Handle")] [Text "the contact"];
     elem "arg" [("name", ""); ("type", "s"); ("direction", "out");
                 ("tp:type", "Unique_Name")] []].

(** The three interfaces of [zeta_alpha_mu] declared in another order. *)
Definition mu_zeta_alpha : Node :=
  spec_document
    [iface_node "Mu" [method "Ping" []];
     iface_node "Zeta" [method "Ping" []];
     iface_node "Alpha" [method "Ping" []]].

(** Three interfaces, declared in the order Zeta, Alpha, Mu. *)
Definition zeta_alpha_mu : Node :=
  spec_document
    [iface_node "Zeta" [method "Ping" []];
     iface_node "Alpha" [method "Ping" []];
     iface_node "Mu" [method "Ping" []]].



(** A method without arguments. *)
Definition ping : Node := method "Ping" [].

End Examples.

(** ** The rest of the script *)

Section script.
Context `{Libglibcodegen}.

(** [types_to_gtypes(types)], the list comprehension
    [[type_to_gtype(t)[1] for t in types]]: the marshalling tags in order, or
    the exception of the first [type_to_gtype] that raises. *)
Definition types_to_gtypes (types : list string) : option (list string) :=
  mapM (fun t => info ← type_to_gtype t; Some info.1.1.2) types.

(** The wire types of the [arg] elements below a method or a signal. *)
Definition arg_types (member : Node) : list string :=
  (fun arg => getAttribute arg "type") <$> method_args member.


End script.

(** Two [arg] elements with the same [name], [direction] and [type]
    attributes, whatever else they carry. *)
Definition same_wire (arg arg' : Node) : Prop :=
  getAttribute arg "name" = getAttribute arg' "name" /\
  getAttribute arg "direction" = getAttribute arg' "direction" /\
  getAttribute arg "type" = getAttribute arg' "type".

(** An entry of [in_args] or [out_args] without its [tp_type]. *)
Definition strip_tp (e : arg_entry) : string * gtype_info := e.1.

(** The local variables of the first loop, up to the [tp_type] fields. *)
Definition same_locals (st st' : arg_locals) : Prop :=
  ret_count st = ret_count st' /\
  strip_tp <$> in_args st = strip_tp <$> in_args st' /\
  strip_tp <$> out_args st = strip_tp <$> out_args st'.

(** ** The run and the files

    [call] and [main] above describe the run in which the two files are
    opened and written and each path names a file of its own.  Below, a path
    names a file through [resolve] (two paths may name one file),
    [open(path, 'w')] and [write] may raise [IOError], and [list.sort] is any
    stable sort. *)


Section files.
Context `{Libglibcodegen} {File : Type} `{Countable File}.
Context (resolve : string -> File).
Local Open Scope gen_scope.

(** [Generator.__call__], lines 194 to 206, [ifaces] being the list after
    [ifaces.sort(cmp_by_name)]. *)
Definition emit_lines (ifaces : list Node) : Gen unit :=
  h "#include <dbus/dbus-glib.h>" ;;
  h "#include <telepathy-glib/proxy.h>" ;;
  h "#include <telepathy-glib/interfaces.h>" ;;
  h "" ;;
  self_basename <- attr basename ;;
  b ("#include " +:+ Py.dq +:+ self_basename +:+ ".h" +:+ Py.dq) ;;
  b "" ;;
  for_each ifaces do_interface.







End files.

(** * callchannel.py: the call channel example

    The script is glue over dbus, gst, farsight and tpfarsight.  The values
    of farsight it compares and passes on are parameters.  The calls a method
    makes on outside objects are recorded as events, in the order the method
    makes them; [GetProtocol] and [bus_message] return or raise as the outside
    object decides, the other calls return.  A method ends with its result or
    with the exception it raises. *)

(** What the script uses of [farsight]. *)
Class Farsight := {
  MediaType : Type;
  MediaType_eq_dec :: EqDecision MediaType;
  MEDIA_TYPE_AUDIO : MediaType;
  MEDIA_TYPE_VIDEO : MediaType;
  CodecId : Type;
  CODEC_ID_ANY : CodecId;
  CODEC_ID_DISABLE : CodecId
}.

Module CallChannel.

Section methods.
Context `{Farsight}.

(** [farsight.Codec(id, encoding_name, media_type, clock_rate)]. *)
Record Codec : Type := mkCodec {
  codec_id : CodecId;
  encoding_name : string;
  media_type : MediaType;
  clock_rate : N
}.

Inductive exn : Type :=
| UnboundLocalError (name : string)
| DBusException.

(** A gst element the script makes, and a pad. *)
Inductive element : Type :=
| element_factory_make (factory : string)
| parse_bin_from_description (description : string) (ghost_unlinked_pads : bool).

Inductive pad : Type :=
| get_pad (e : element) (name : string)
| given_pad (id : string).

Inductive event : Type :=
| Print (text : string)
| SetCodecPreferences (prefs : list Codec)
| Connect (signal handler : string)
| Make (e : element)
| SetProperty (e : element) (property : string) (value : bool)
| PipelineAdd (e : element)
| PadLink (src sink : pad)
| SetState (e : element) (state : string)
| BusMessage (tfchannel message : string)
| GetProperty (property : string)
| GetProtocol.

(** The attributes of [self] the methods read: the result of
    [self.conn.GetProtocol()], a string or an exception, and
    [self.tfchannel], [None] until [tpfs_created] has run. *)
Record self_ : Type := mkSelf {
  conn_GetProtocol : exn + string;
  tfchannel : option string
}.

(** The properties of a content the methods read. *)
Record content_ : Type := mkContent {
  sink_pad : pad;
  content_media_type : MediaType
}.

(** A method body: the events so far, and an exception or a result. *)
Definition Eff (A : Type) : Type := list event * (exn + A).

Definition eff_ret {A} (x : A) : Eff A := ([], inr x).
Definition eff_bind {A B} (m : Eff A) (k : A -> Eff B) : Eff B :=
  match m with
  | (t, inl e) => (t, inl e)
  | (t, inr x) => let '(t', r) := k x in (t ++ t', r)
  end.
Definition tell (ev : event) : Eff unit := ([ev], inr tt).
Definition throw {A} (e : exn) : Eff A := ([], inl e).
Definition lift_result {A} (r : exn + A) : Eff A := ([], r).
(** A call on an outside object that returns [r] or raises. *)
Definition call_out {A} (ev : event) (r : exn + A) : Eff A := ([ev], r).

(** Reading a local variable that a branch may have left unassigned. *)
Definition read_local {A} (name : string) (v : option A) : Eff A :=
  match v with
  | Some x => eff_ret x
  | None => throw (UnboundLocalError name)
  end.

(** [get_codec_config(self, media_type)]: an exception, or the value
    returned ([None] would be Python's [None]). *)
Definition get_codec_config (self : self_) (media_type : MediaType)
  : exn + option (list Codec) :=
  if decide (media_type = MEDIA_TYPE_VIDEO) then
    let codecs := [mkCodec CODEC_ID_ANY "H264" MEDIA_TYPE_VIDEO 0%N] in
    match conn_GetProtocol self with
    | inl e => inl e
    | inr protocol =>
        let codecs :=
          if decide (protocol = "sip")
          then codecs ++ [mkCodec CODEC_ID_DISABLE "THEORA" MEDIA_TYPE_VIDEO 0%N]
          else codecs ++ [mkCodec CODEC_ID_ANY "THEORA" MEDIA_TYPE_VIDEO 0%N] in
        let codecs :=
          codecs ++
          [mkCodec CODEC_ID_ANY "H263" MEDIA_TYPE_VIDEO 0%N;
           mkCodec CODEC_ID_DISABLE "DV" MEDIA_TYPE_VIDEO 0%N;
           mkCodec CODEC_ID_ANY "JPEG" MEDIA_TYPE_VIDEO 0%N;
           mkCodec CODEC_ID_ANY "MPV" MEDIA_TYPE_VIDEO 0%N] in
        inr (Some codecs)
    end
  else
    let codecs :=
      [mkCodec CODEC_ID_ANY "SPEEX" MEDIA_TYPE_AUDIO 16000%N;
       mkCodec CODEC_ID_ANY "SPEEX" MEDIA_TYPE_AUDIO 8000%N] in
    inr (Some codecs).

Local Notation "x <- m ;; k" := (eff_bind m (fun x => k))
  (at level 100, m at next level, k at level 200, right associativity).
Local Notation "m ;; k" := (eff_bind m (fun _ => k))
  (at level 100, k at level 200, right associativity).

(** [get_codec_config] with the call it makes: [self.conn.GetProtocol()], in
    the video branch only. *)
Definition get_codec_config_call (self : self_) (media_type : MediaType)
  : Eff (option (list Codec)) :=
  if decide (media_type = MEDIA_TYPE_VIDEO)
  then call_out GetProtocol (get_codec_config self media_type)
  else lift_result (get_codec_config self media_type).

(** [content_added(self, channel, content)]. *)
Definition content_added (self : self_) (content : content_) : Eff unit :=
  tell (GetProperty "sink-pad") ;;
  let sinkpad := sink_pad content in
  tell (GetProperty "media-type") ;;
  let mtype := content_media_type content in
  prefs <- get_codec_config_call self mtype ;;
  match prefs with
  | Some prefs => tell (SetCodecPreferences prefs)
  | None => eff_ret tt
  end ;;
  tell (Connect "src-pad-added" "src_pad_added") ;;
  src <- (if decide (mtype = MEDIA_TYPE_AUDIO) then
            let src := element_factory_make "audiotestsrc" in
            tell (Make src) ;; tell (SetProperty src "is-live" true) ;;
            eff_ret (Some src)
          else if decide (mtype = MEDIA_TYPE_VIDEO) then
            let src := element_factory_make "videotestsrc" in
            tell (Make src) ;; tell (SetProperty src "is-live" true) ;;
            eff_ret (Some src)
          else eff_ret None) ;;
  src <- read_local "src" src ;;
  tell (PipelineAdd src) ;;
  tell (PadLink (get_pad src "src") sinkpad) ;;
  tell (SetState src "PLAYING").


(** [async_handler(self, bus, message)]; [bus_message] is what the call
    [self.tfchannel.bus_message(message)] does when it is made: it returns,
    or raises an exception.  The assignment after [return True] is never
    reached. *)
Definition async_handler (self : self_) (message : string)
    (bus_message : exn + unit) : Eff bool :=
  match tfchannel self with
  | Some tfchannel => call_out (BusMessage tfchannel message) bus_message
  | None => eff_ret tt
  end ;;
  eff_ret true.

(** [tpfs_created(self, source, result)]; [new_finish] is what
    [source.new_finish(result)] returns.  The method assigns
    [self.tfchannel]. *)
Definition tpfs_created (self : self_) (new_finish : string) : self_ * Eff unit :=
  (mkSelf (conn_GetProtocol self) (Some new_finish),
   (tell (Connect "fs-conference-add" "conference_added") ;;
    tell (Connect "content-added" "content_added"))).

(** The callbacks the main loop delivers to a channel object: a bus message
    for [async_handler], with what [bus_message] does if it is called on it,
    or the channel for [tpfs_created].  [deliver_all] gives the object and
    the calls made after a sequence of callbacks; an exception that leaves a
    callback is reported by the main loop, which goes on with the next
    callback. *)
Inductive callback : Type :=
| BusWatch (message : string) (bus_message : exn + unit)
| TpfsCreated (new_finish : string).

Definition deliver (self : self_) (cb : callback) : self_ * list event :=
  match cb with
  | BusWatch message bus_message => (self, (async_handler self message bus_message).1)
  | TpfsCreated new_finish =>
      let '(self', r) := tpfs_created self new_finish in (self', r.1)
  end.

Fixpoint deliver_all (self : self_) (cbs : list callback) : self_ * list event :=
  match cbs with
  | [] => (self, [])
  | cb :: rest =>
      let '(self', t) := deliver self cb in
      let '(self'', t') := deliver_all self' rest in
      (self'', t ++ t')
  end.

End methods.

End CallChannel.

(** farsight's values as the C library numbers them. *)
Definition farsight_values : Farsight :=
  {| MediaType := nat;
     MEDIA_TYPE_AUDIO := 0;
     MEDIA_TYPE_VIDEO := 1;
     CodecId := Z;
     CODEC_ID_ANY := (-1)%Z;
     CODEC_ID_DISABLE := (-2)%Z |}.

(** * Results *)

(** ** Buffers and the monad *)

Lemma push_nil self : push self [] [] = self.
Proof. destruct self; unfold push; simpl. by rewrite !app_nil_r. Qed.

Lemma push_push self hs bs hs' bs' :
  push (push self hs bs) hs' bs' = push self (hs ++ hs') (bs ++ bs').
Proof. unfold push; simpl. by rewrite !app_assoc. Qed.

Lemma emits_ret self : emits (gen_ret tt) self [] [].
Proof. unfold emits, gen_ret. by rewrite push_nil. Qed.

Lemma emits_h s self : emits (h s) self [s] [].
Proof. reflexivity. Qed.

Lemma emits_b s self : emits (b s) self [] [s].
Proof. reflexivity. Qed.

Lemma emits_bind m k self hs bs hs' bs' :
  emits m self hs bs ->
  emits (k tt) (push self hs bs) hs' bs' ->
  emits (gen_bind m k) self (hs ++ hs') (bs ++ bs').
Proof.
  unfold emits, gen_bind. intros -> ->. by rewrite push_push.
Qed.

Lemma emits_hb x y self : emits (gen_bind (h x) (fun _ => b y)) self [x] [y].
Proof. by apply (emits_bind (h x) (fun _ => b y) self [x] [] [] [y]). Qed.

(** Running a sequence whose first command is known to append. *)
Lemma run_bind_emits {B} m (k : unit -> Gen B) self hs bs :
  emits m self hs bs -> gen_bind m k self = k tt (push self hs bs).
Proof. unfold emits, gen_bind. by intros ->. Qed.

Lemma emits_for_each {A} (P : Generator -> Prop) (f : A -> Gen unit)
    (F G : A -> list string) (l : list A) :
  (forall self hs bs, P self -> P (push self hs bs)) ->
  (forall x self, P self -> emits (f x) self (F x) (G x)) ->
  forall self, P self -> emits (for_each l f) self (concat (F <$> l)) (concat (G <$> l)).
Proof.
  intros Hpush Hf. induction l as [|x l IH]; intros self HP; simpl.
  - apply emits_ret.
  - eapply emits_bind; [by apply Hf|]. apply IH. by apply Hpush.
Qed.

Lemma concat_singletons {A B} (f : A -> B) (l : list A) :
  concat ((fun x => [f x]) <$> l) = f <$> l.
Proof. induction l; simpl; by f_equal. Qed.

Lemma concat_nils {A B} (l : list A) : concat ((fun _ => @nil B) <$> l) = [].
Proof. by induction l. Qed.

(** A loop of single [h] and [b] calls. *)
Lemma emits_for_each_hb {A} (f : A -> Gen unit) (F G : A -> string) l self :
  (forall x self, emits (f x) self [F x] [G x]) ->
  emits (for_each l f) self (F <$> l) (G <$> l).
Proof.
  intros Hf. rewrite <-(concat_singletons F), <-(concat_singletons G).
  by apply (emits_for_each (fun _ => True)).
Qed.

Lemma emits_for_each_b {A} (f : A -> Gen unit) (G : A -> string) l self :
  (forall x self, emits (f x) self [] [G x]) ->
  emits (for_each l f) self [] (G <$> l).
Proof.
  intros Hf.
  pose proof (emits_for_each (fun _ => True) f (fun _ => []) (fun x => [G x]) l
                (fun _ _ _ _ => I) (fun x self _ => Hf x self) self I) as Hl.
  by rewrite concat_nils, concat_singletons in Hl.
Qed.

Lemma emits_for_each_h {A} (f : A -> Gen unit) (F : A -> string) l self :
  (forall x self, emits (f x) self [F x] []) ->
  emits (for_each l f) self (F <$> l) [].
Proof.
  intros Hf.
  pose proof (emits_for_each (fun _ => True) f (fun x => [F x]) (fun _ => []) l
                (fun _ _ _ _ => I) (fun x self _ => Hf x self) self I) as Hl.
  by rewrite concat_nils, concat_singletons in Hl.
Qed.

(** Steps through a sequence of commands, collecting the appended lines. *)
Ltac step_emit :=
  first
    [ erewrite (run_bind_emits (h _)) by apply emits_h
    | erewrite (run_bind_emits (b _)) by apply emits_b ].

Section method_results.
Context `{Libglibcodegen}.

(** [do_method] appends the declaration to the header and the definition
    to the body, built from the two argument lists of the first loop. *)
Lemma do_method_emits iface method locals self :
  collect_args method = Some locals ->
  emits (do_method iface method) self
    (method_decl (prefix_lc self) iface (getAttribute method "name")
       (in_args locals) (out_args locals))
    (method_defn (prefix_lc self) iface (getAttribute method "name")
       (in_args locals) (out_args locals)).
Proof.
  intros Hc. unfold emits, do_method.
  unfold gen_bind at 1. unfold lift. rewrite Hc.
  unfold gen_bind at 1. unfold attr.
  do 2 step_emit.
  erewrite (run_bind_emits (for_each (in_args locals) _)); last first.
  { apply (emits_for_each_hb _ in_param in_param).
    intros [[name [[[ctype gtype] marshaller] pointer]] tp_type] self0. apply emits_hb. }
  erewrite (run_bind_emits (for_each (out_args locals) _)); last first.
  { apply (emits_for_each_hb _ out_param out_param).
    intros [[name [[[ctype gtype] marshaller] pointer]] tp_type] self0. apply emits_hb. }
  do 14 step_emit.
  erewrite (run_bind_emits (for_each (in_args locals) _)); last first.
  { apply (emits_for_each_b _ payload_item). intros x self0. reflexivity. }
  do 2 step_emit.
  erewrite (run_bind_emits (for_each (out_args locals) _)); last first.
  { apply (emits_for_each_b _ payload_item). intros x self0. reflexivity. }
  do 4 step_emit.
  unfold h. rewrite !push_push. simpl prefix_lc.
  unfold method_decl, method_defn, call_payload, param_lines, stub_open.
  f_equal. f_equal. f_equal; repeat (simpl; rewrite <-app_assoc); reflexivity.
Qed.

Lemma do_method_raises iface method self :
  collect_args method = None -> do_method iface method self = None.
Proof. intros Hc. unfold do_method, gen_bind at 1, lift. by rewrite Hc. Qed.

End method_results.

(** ** The first loop of [do_method] *)

Section arg_loop_results.
Context `{Libglibcodegen}.

Lemma out_names_cons_unnamed k a outs :
  unnamed a -> out_names k (a :: outs) = ("out" +:+ Py.fmt_u k) :: out_names (S k) outs.
Proof.
  intros Ha. unfold out_names. rewrite imap_cons. f_equal.
  - unfold out_name. rewrite decide_True by done. simpl. by rewrite Nat.add_0_r.
  - apply imap_ext. intros j b _. unfold out_name. simpl.
    destruct (decide (unnamed b)); [|done].
    rewrite filter_cons_True by done. simpl. do 2 f_equal. lia.
Qed.

Lemma out_names_cons_named k a outs :
  ~ unnamed a ->
  out_names k (a :: outs) = ("out_" +:+ getAttribute a "name") :: out_names k outs.
Proof.
  intros Ha. unfold out_names. rewrite imap_cons. f_equal.
  - unfold out_name. by rewrite decide_False.
  - apply imap_ext. intros j b _. unfold out_name. simpl.
    destruct (decide (unnamed b)); [|done].
    by rewrite filter_cons_False.
Qed.

(** The loop invariant, from any state of the local variables. *)
Lemma arg_loop_spec args : forall st st',
  arg_loop st args = Some st' ->
  exists ins outs,
    in_args st' = in_args st ++ ins /\ out_args st' = out_args st ++ outs /\
    Forall2 resolves (ins_of args) ins /\ Forall2 resolves (outs_of args) outs /\
    entry_name <$> ins = in_name <$> ins_of args /\
    entry_name <$> outs = out_names (ret_count st) (outs_of args) /\
    ret_count st' = ret_count st + length (filter unnamed (outs_of args)).
Proof.
  induction args as [|a args IH]; intros st st' Hloop; simpl in Hloop.
  - inversion Hloop; subst. exists [], []. rewrite !app_nil_r.
    repeat split; try constructor. simpl. lia.
  - destruct (arg_step st a) as [st1|] eqn:Hstep; simpl in Hloop; [|done].
    apply IH in Hloop as (ins & outs & Hin & Hout & Hri & Hro & Hni & Hno & Hrc).
    unfold arg_step in Hstep.
    destruct (type_to_gtype (getAttribute a "type")) as [info|] eqn:Hty;
      simpl in Hstep; [|by repeat case_match].
    unfold ins_of, outs_of in *.
    destruct (decide (is_out a)) as [Ho|Ho].
    + rewrite (bool_decide_eq_true_2 _ Ho) in Hstep. simpl in Hstep.
      rewrite (filter_cons_False _ a) by tauto. rewrite (filter_cons_True _ a) by done.
      destruct (decide (unnamed a)) as [Hu|Hu].
      * rewrite (bool_decide_eq_true_2 _ Hu) in Hstep. simpl in Hstep.
        inversion Hstep; subst st1; clear Hstep.
        cbn [ret_count in_args out_args] in *.
        exists ins, (("out" +:+ Py.fmt_u (ret_count st), info, getAttribute a "tp:type") :: outs).
        rewrite Hout, <-app_assoc. repeat split; try done.
        -- constructor; [by split|done].
        -- rewrite out_names_cons_unnamed by done. by rewrite fmap_cons, Hno.
        -- rewrite filter_cons_True by done. simpl. lia.
      * rewrite (bool_decide_eq_false_2 _ Hu) in Hstep. simpl in Hstep.
        inversion Hstep; subst st1; clear Hstep.
        cbn [ret_count in_args out_args] in *.
        exists ins, (("out_" +:+ getAttribute a "name", info, getAttribute a "tp:type") :: outs).
        rewrite Hout, <-app_assoc. repeat split; try done.
        -- constructor; [by split|done].
        -- rewrite out_names_cons_named by done. by rewrite fmap_cons, Hno.
        -- rewrite filter_cons_False by done. simpl. lia.
    + rewrite (bool_decide_eq_false_2 _ Ho) in Hstep. simpl in Hstep.
      rewrite (filter_cons_True _ a) by done. rewrite (filter_cons_False _ a) by done.
      inversion Hstep; subst st1; clear Hstep.
        cbn [ret_count in_args out_args] in *.
      exists (("in_" +:+ getAttribute a "name", info, getAttribute a "tp:type") :: ins), outs.
      rewrite Hin, <-app_assoc. repeat split; try done.
      * constructor; [by split|done].
      * by rewrite !fmap_cons, Hni.
Qed.

(** The loop raises exactly when a wire type is missing from the table,
    whatever the directions are. *)
Lemma arg_loop_is_Some args : forall st,
  is_Some (arg_loop st args) <-> all_resolve args.
Proof.
  unfold all_resolve.
  induction args as [|a args IH]; intros st; simpl.
  - split; [constructor | by eexists].
  - rewrite Forall_cons. unfold arg_step.
    destruct (type_to_gtype (getAttribute a "type")) as [info|]; simpl.
    + repeat case_match; simpl; rewrite IH; split; eauto; tauto.
    + repeat case_match; simpl; split; intros HH; try by destruct HH as [? ?].
      all: by destruct HH as [[? ?] _].
Qed.

(** The two argument lists of a method in closed form. *)
Lemma collect_args_spec method locals :
  collect_args method = Some locals ->
  Forall2 resolves (ins_of (method_args method)) (in_args locals) /\
  Forall2 resolves (outs_of (method_args method)) (out_args locals) /\
  entry_name <$> in_args locals = in_name <$> ins_of (method_args method) /\
  entry_name <$> out_args locals = out_names 0 (outs_of (method_args method)).
Proof.
  intros Hc. apply arg_loop_spec in Hc as (ins & outs & Hin & Hout & ? & ? & ? & ? & _).
  simpl in *. by subst.
Qed.

Lemma collect_args_is_Some method :
  is_Some (collect_args method) <-> all_resolve (method_args method).
Proof. apply arg_loop_is_Some. Qed.

End arg_loop_results.

(** ** The methods in closed form *)

Lemma runs_as_emits m self hs bs : runs_as m self (Some (hs, bs)) <-> emits m self hs bs.
Proof. done. Qed.

Lemma for_each_runs {A} (P : Generator -> Prop) (f : A -> Gen unit)
    (T : A -> option (list string * list string)) (l : list A) :
  (forall self hs bs, P self -> P (push self hs bs)) ->
  (forall x self, P self -> runs_as (f x) self (T x)) ->
  forall self, P self ->
    runs_as (for_each l f) self ((fun ts => (concat ts.*1, concat ts.*2)) <$> mapM T l).
Proof.
  intros Hpush Hf. induction l as [|x l IH]; intros self HP.
  - apply emits_ret.
  - unfold runs_as. cbn [for_each mapM]. unfold gen_bind.
    rewrite (Hf x self HP). destruct (T x) as [[hs bs]|]; simpl; [|done].
    rewrite (IH (push self hs bs)) by auto.
    destruct (mapM T l) as [ts|]; simpl; [|done].
    by rewrite push_push.
Qed.

Lemma mapM_fmap_each {A B C} (f : A -> option B) (g : B -> C) (l : list A) :
  mapM (fun x => g <$> f x) l = fmap g <$> mapM f l.
Proof.
  induction l as [|x l IH]; cbn [mapM]; [done|].
  destruct (f x); simpl; [|done]. rewrite IH. by destruct (mapM f l).
Qed.

Lemma fst_tagged {A B} (y : B) (l : list A) :
  ((fun x => (x, y)) <$> l).*1 = l.
Proof. induction l; simpl; by f_equal. Qed.

Lemma snd_tagged {A} (l : list (list A)) :
  concat ((fun x => (x, @nil A)) <$> l).*2 = [].
Proof. by induction l. Qed.

Section interface_results.
Context `{Libglibcodegen}.

Lemma signal_gtypes_spec args : forall gtypes,
  signal_gtypes gtypes args = (gtypes ++.) <$> mapM signal_tag args.
Proof.
  induction args as [|a args IH]; intros gtypes; cbn [signal_gtypes mapM].
  - simpl. by rewrite app_nil_r.
  - pose proof (eq_refl : signal_tag a
                 = info_gtype <$> type_to_gtype (getAttribute a "type")) as Htag.
    destruct (type_to_gtype (getAttribute a "type")) as [info|];
      rewrite Htag; simpl; [|done].
    rewrite IH. destruct (mapM signal_tag args); simpl; [|done].
    by rewrite <-app_assoc.
Qed.

Lemma do_signal_add_runs signal self :
  runs_as (do_signal_add signal) self ((fun hs => (hs, [])) <$> signal_text signal).
Proof.
  unfold runs_as, do_signal_add, signal_text, method_args.
  unfold gen_bind at 1. unfold lift. rewrite signal_gtypes_spec.
  destruct (mapM signal_tag _) as [tags|]; simpl; [|done].
  step_emit.
  erewrite (run_bind_emits (for_each tags _)); last first.
  { apply (emits_for_each_h _ (fun gtype => "      " +:+ gtype +:+ ",")).
    intros x self0. apply emits_h. }
  unfold h. rewrite !push_push. reflexivity.
Qed.

Lemma do_method_runs iface method self :
  runs_as (do_method iface method) self (method_text (prefix_lc self) iface method).
Proof.
  unfold runs_as, method_text.
  destruct (collect_args method) as [locals|] eqn:Hc; simpl.
  - by apply do_method_emits.
  - by apply do_method_raises.
Qed.

Lemma do_interface_runs node self :
  runs_as (do_interface node) self (interface_text (prefix_lc self) node).
Proof.
  unfold runs_as, do_interface, interface_text.
  unfold gen_bind at 1.
  destruct (bool_decide (length (getElementsByTagName node "interface") = 1));
    [|done].
  cbn [gen_ret]. unfold gen_bind at 1. unfold attr.
  do 3 step_emit.
  pose proof (for_each_runs (fun _ => True) do_signal_add
    (fun s => (fun hs => (hs, [])) <$> signal_text s)
    (getElementsByTagName node "signal") (fun _ _ _ _ => I)
    (fun s self0 _ => do_signal_add_runs s self0)) as Hsig.
  unfold gen_bind at 1. rewrite Hsig by done. clear Hsig.
  rewrite mapM_fmap_each.
  destruct (mapM signal_text _) as [sigs|]; simpl; [|done].
  rewrite fst_tagged, snd_tagged.
  do 3 step_emit.
  erewrite (run_bind_emits (for_each _ do_signal)); last first.
  { pose proof (emits_for_each (fun _ => True) do_signal (fun _ => []) (fun _ => [])
      (getElementsByTagName node "signal") (fun _ _ _ _ => I)
      (fun s self0 _ => emits_ret self0)) as Hl.
    rewrite concat_nils in Hl. by apply Hl. }
  rewrite !push_push.
  rewrite (for_each_runs (fun g => prefix_lc g = prefix_lc self)
    (do_method (Py.remove_char "/" (getAttribute node "name")))
    (method_text (prefix_lc self) (iface_name node))); [|done| |done].
  - destruct (mapM (method_text _ _) _) as [stubs|]; simpl; [|done].
    rewrite push_push. unfold registration_block.
    do 3 f_equal; repeat (simpl; rewrite <-?app_assoc); by rewrite ?app_nil_r.
  - intros m self0 Hp. rewrite <-Hp. apply do_method_runs.
Qed.

Lemma call_emit_runs self :
  runs_as call_emit self (call_text (dom self) (prefix_lc self) (basename self)).
Proof.
  unfold runs_as, call_emit, call_text.
  do 4 step_emit. unfold gen_bind at 1. unfold attr.
  do 2 step_emit. unfold gen_bind at 1.
  rewrite !push_push. cbn [basename dom push].
  rewrite (for_each_runs (fun g => prefix_lc g = prefix_lc self) do_interface
    (interface_text (prefix_lc self))); [|done| |done].
  - destruct (mapM (interface_text _) _) as [texts|]; simpl; [|done].
    by rewrite push_push.
  - intros n self0 Hp. rewrite <-Hp. apply do_interface_runs.
Qed.

End interface_results.

(** ** The whole run *)

Section run_results.
Context `{Libglibcodegen}.

(** The two files are different files. *)
Lemma header_body_names_differ (basename : string) :
  basename +:+ ".h" <> basename +:+ ".c".
Proof. intros Heq. by apply (inj (String.app basename)) in Heq. Qed.

(** A run writes the joined lines of [call_text] over whatever the two
    files held, and touches nothing when it raises. *)
Lemma main_spec dom prefix basename (fs : gmap string string) :
  main dom prefix basename fs =
    (fun t => write_file (basename +:+ ".c") (Py.join Py.nl t.2)
                (write_file (basename +:+ ".h") (Py.join Py.nl t.1) fs))
    <$> call_text dom (Py.lower prefix) basename.
Proof.
  unfold main, call. rewrite call_emit_runs. simpl.
  by destruct (call_text dom (Py.lower prefix) basename) as [[hs bs]|].
Qed.

Lemma main_artifacts dom prefix basename (fs : gmap string string) :
  (fs' ← main dom prefix basename fs;
   Some (fs' !! (basename +:+ ".h"), fs' !! (basename +:+ ".c")))
  = (fun t => (Some (Py.join Py.nl t.1), Some (Py.join Py.nl t.2)))
    <$> call_text dom (Py.lower prefix) basename.
Proof.
  rewrite main_spec.
  destruct (call_text dom (Py.lower prefix) basename) as [[hs bs]|]; simpl; [|done].
  unfold write_file.
  rewrite lookup_insert_ne by (apply not_eq_sym, header_body_names_differ).
  by rewrite !lookup_insert_eq.
Qed.

End run_results.

(** ** Sorting the interfaces *)

Section sort_results.
Context {A : Type} (cmp : A -> A -> comparison).

Lemma sort_insert_perm x l : sort_insert cmp x l ≡ₚ x :: l.
Proof.
  induction l as [|y l IH]; simpl; [done|].
  destruct (cmp_lt cmp y x); [|done].
  rewrite IH. apply Permutation_swap.
Qed.


(** An element is only moved past elements that compare strictly below
    it, so the elements selected by [P] keep their order whenever [P]
    never holds of two elements of which one is strictly below the other. *)
Lemma sort_insert_filter (P : A -> Prop) `{!forall a, Decision (P a)} x l :
  (forall y, cmp_lt cmp y x = true -> P x -> ~ P y) ->
  filter P (sort_insert cmp x l) = filter P (x :: l).
Proof.
  intros Hlt. induction l as [|y l IH]; simpl; [done|].
  destruct (cmp_lt cmp y x) eqn:Hyx; [|done].
  rewrite (filter_cons P y), IH, !(filter_cons P x), (filter_cons P y).
  destruct (decide (P x)) as [Hx|Hx]; [|done].
  destruct (decide (P y)) as [Hy|Hy]; [|done].
  by destruct (Hlt y Hyx Hx).
Qed.
End sort_results.

Section by_name.
Import libglibcodegen.

Lemma cmp_lt_by_name_true y x :
  cmp_lt cmp_by_name y x = true -> name_le y x /\ node_name y <> node_name x.
Proof.
  unfold cmp_lt, cmp_by_name, name_le, String.le, String.leb, node_name.
  destruct (String.compare _ _) eqn:Hcmp; try done. intros _. split; [done|].
  intros Heq. rewrite Heq in Hcmp.
  pose proof (String.compare_antisym (getAttribute x "name") (getAttribute x "name")) as Ha.
  rewrite Hcmp in Ha. done.
Qed.

Lemma cmp_lt_by_name_false y x : cmp_lt cmp_by_name y x = false -> name_le x y.
Proof.
  unfold cmp_lt, cmp_by_name, name_le, String.le, String.leb, node_name.
  rewrite (String.compare_antisym (getAttribute x "name")).
  by destruct (String.compare _ _).
Qed.

Lemma sort_insert_sorted x l :
  StronglySorted name_le l -> StronglySorted name_le (sort_insert cmp_by_name x l).
Proof.
  induction 1 as [|y l Hs IH Hy]; simpl.
  - by repeat constructor.
  - destruct (cmp_lt cmp_by_name y x) eqn:Hyx.
    + constructor; [done|].
      rewrite sort_insert_perm. constructor; [|done].
      by apply cmp_lt_by_name_true.
    + apply cmp_lt_by_name_false in Hyx.
      constructor; [by constructor|]. constructor; [done|].
      eapply Forall_impl; [exact Hy|]. intros z Hz. unfold name_le in *. by etrans.
Qed.

Lemma list_sort_sorted l : StronglySorted name_le (list_sort cmp_by_name l).
Proof.
  induction l as [|x l IH]; simpl; [constructor|]. by apply sort_insert_sorted.
Qed.

(** Stability: nodes of one name keep their document order. *)
Lemma list_sort_stable name l :
  filter (fun n => node_name n = name) (list_sort cmp_by_name l)
  = filter (fun n => node_name n = name) l.
Proof.
  induction l as [|x l IH]; simpl; [done|].
  rewrite sort_insert_filter.
  - by rewrite !filter_cons, IH.
  - intros y Hyx Hx Hy. apply cmp_lt_by_name_true in Hyx as [_ Hne]. congruence.
Qed.

(** A sorted list is determined by its nodes of each name in order: every
    stable sort by [cmp_by_name] returns the list [list_sort] returns. *)
Lemma sorted_stable_unique l1 : forall l2,
  StronglySorted name_le l1 -> StronglySorted name_le l2 ->
  (forall name, filter (fun n => node_name n = name) l1
                = filter (fun n => node_name n = name) l2) ->
  l1 = l2.
Proof.
  induction l1 as [|x l1 IH]; intros l2 Hs1 Hs2 Hf.
  - destruct l2 as [|y l2]; [done|].
    specialize (Hf (node_name y)). by rewrite filter_cons_True in Hf.
  - destruct l2 as [|y l2].
    { specialize (Hf (node_name x)). by rewrite filter_cons_True in Hf. }
    apply StronglySorted_inv in Hs1 as [Hs1 Hx]. apply StronglySorted_inv in Hs2 as [Hs2 Hy].
    assert (x = y) as <-.
    { pose proof (Hf (node_name x)) as Hfx. rewrite filter_cons_True in Hfx by done.
      destruct (decide (node_name y = node_name x)) as [Heq|Hne].
      - rewrite (filter_cons_True _ y) in Hfx by done. by injection Hfx.
      - rewrite (filter_cons_False _ y) in Hfx by done.
        assert (x ∈ l2) as Hx2.
        { eapply (list_elem_of_filter (fun n => node_name n = node_name x)).
          rewrite <-Hfx. left. }
        pose proof (Hf (node_name y)) as Hfy.
        rewrite (filter_cons_False _ x) in Hfy by done.
        rewrite (filter_cons_True _ y) in Hfy by done.
        assert (y ∈ l1) as Hy1.
        { eapply (list_elem_of_filter (fun n => node_name n = node_name y)).
          rewrite Hfy. left. }
        rewrite Forall_forall in Hx, Hy.
        destruct Hne. apply (anti_symm String.le); [by apply Hy|by apply Hx]. }
    f_equal. apply IH; [done..|]. intros name. specialize (Hf name).
    rewrite !(filter_cons _ x) in Hf. by destruct (decide (node_name x = name)); simplify_eq.
Qed.

End by_name.

(** ** The run and the files *)

Section files_results.
Context `{Libglibcodegen} {File : Type} `{Countable File}.
Context (resolve : string -> File).



Lemma emit_lines_call_emit self :
  emit_lines (sorted_ifaces (dom self)) self = call_emit self.
Proof. reflexivity. Qed.






End files_results.








(** ** The stub of one method *)

Lemma emitted_spec `{Libglibcodegen} prefix iface method :
  emitted prefix iface method = method_text (Py.lower prefix) iface method.
Proof.
  unfold emitted. rewrite do_method_runs. simpl.
  by destruct (method_text (Py.lower prefix) iface method) as [[hs bs]|].
Qed.

Section rearrange_results.
Context {A B : Type}.

Lemma rearrange_fmap (f : A -> B) sigma (l : list A) :
  f <$> rearrange sigma l = rearrange sigma (f <$> l).
Proof.
  induction sigma as [|i sigma IH]; cbn [rearrange]; [done|].
  rewrite list_lookup_fmap. destruct (l !! i); cbn [fmap option_fmap option_map];
    by rewrite ?fmap_cons, IH.
Qed.

Lemma rearrange_Forall (P : A -> Prop) sigma (l : list A) :
  Forall P l -> Forall P (rearrange sigma l).
Proof.
  intros Hl. induction sigma as [|i sigma IH]; simpl; [constructor|].
  destruct (l !! i) as [x|] eqn:Hi; [|done].
  constructor; [|done]. exact (proj1 (Forall_lookup P l) Hl i x Hi).
Qed.

(** Entries that are determined by their arguments follow the arguments. *)
Lemma rearrange_Forall2 (R : A -> B -> Prop) sigma (l : list A) (k k' : list B) :
  (forall a e e', R a e -> R a e' -> e = e') ->
  Forall2 R l k -> Forall2 R (rearrange sigma l) k' -> k' = rearrange sigma k.
Proof.
  intros Hfun Hlk. revert k'.
  induction sigma as [|i sigma IH]; intros k' Hk'; simpl in *.
  - by inversion Hk'.
  - destruct (l !! i) as [a|] eqn:Hi.
    + destruct (Forall2_lookup_l _ _ _ _ _ Hlk Hi) as (e & -> & Hae).
      inversion Hk' as [|a' e' ? k'' Hae' Hrest]; subst.
      rewrite (Hfun _ _ _ Hae' Hae). f_equal. by apply IH.
    + assert (k !! i = None) as ->; [|by apply IH].
      apply lookup_ge_None. rewrite <-(Forall2_length _ _ _ Hlk).
      by apply lookup_ge_None.
Qed.

Lemma rearrange_seq (l : list A) n : forall k,
  rearrange (seq k n) l = take n (drop k l).
Proof.
  induction n as [|n IH]; intros k; cbn [seq rearrange]; [done|].
  rewrite IH. destruct (l !! k) as [x|] eqn:Hk.
  - by rewrite (drop_S l x k Hk).
  - apply lookup_ge_None in Hk. rewrite !drop_ge by lia. by rewrite !take_nil.
Qed.

Lemma rearrange_perm sigma (l : list A) :
  sigma ≡ₚ seq 0 (length l) -> rearrange sigma l ≡ₚ l.
Proof.
  intros Hp.
  assert (forall s1 s2, s1 ≡ₚ s2 -> rearrange s1 l ≡ₚ rearrange s2 l) as Hmono.
  { induction 1 as [|i s1 s2 _ IH|i j s|s1 s2 s3 _ IH1 _ IH2]; cbn [rearrange].
    - done.
    - destruct (l !! i); by rewrite IH.
    - destruct (l !! i), (l !! j); try done. apply Permutation_swap.
    - by etrans. }
  rewrite (Hmono _ _ Hp), rearrange_seq, drop_0. by rewrite firstn_all.
Qed.

Lemma Forall2_with_names {C} (P : A -> B -> Prop) (f : B -> C) (g : A -> C) l k :
  Forall2 P l k -> f <$> k = g <$> l -> Forall2 (fun a e => P a e /\ f e = g a) l k.
Proof.
  induction 1 as [|a e l k Hae Hlk IH]; intros Hn; [constructor|].
  rewrite !fmap_cons in Hn. injection Hn as Hn1 Hn2. constructor; auto.
Qed.
End rearrange_results.

Section payload_results.
Context `{Libglibcodegen}.

(** When every out-argument has a name, no name is synthesized. *)
Lemma out_names_all_named k outs :
  Forall (fun a => ~ unnamed a) outs ->
  out_names k outs = (fun a => "out_" +:+ getAttribute a "name") <$> outs.
Proof.
  induction 1 as [|a outs Ha Houts IH]; [done|].
  by rewrite out_names_cons_named, IH.
Qed.

Lemma resolves_entry_eq a e e' :
  resolves a e -> resolves a e' -> entry_name e = entry_name e' -> e = e'.
Proof.
  destruct e as [[n i] t], e' as [[n' i'] t']. unfold resolves, entry_name, entry_info.
  simpl. intros [Hi ->] [Hi' ->] ->. congruence.
Qed.

End payload_results.

(** C3 as stated fails: a method with two unnamed out-arguments, of types
    [s] and [u]; swapping the two arguments in the schema does not swap the
    two lines of the call payload, because the names [out0] and [out1] stay
    in place. *)
Lemma C3_counterexample :
  let head :=
    ["gboolean" +:+ Py.nl +:+ "prefix_iface_block_on_get (gpointer *proxy,"] in
  let middle :=
    ["    GError **error)"; "{";
     "  DBusGProxy *iface = tp_proxy_get_interface (";
     "      TP_PROXY (proxy),"; "      TP_IFACE_QUARK_IFACE,";
     "      error);"; ""; "  if (iface == NULL)"; "    return FALSE;"; "";
     "  return dbus_g_proxy_call (iface, " +:+ Py.dq +:+ "Get" +:+ Py.dq +:+ ", error,";
     "      /* in arguments */"; "      G_TYPE_INVALID,";
     "      /* out arguments */"] in
  let tail := ["      G_TYPE_INVALID);"; "}"; ""; ""] in
  let payload := ["      G_TYPE_STRING, out0,"; "      G_TYPE_UINT, out1,"] in
  let payload' := ["      G_TYPE_UINT, out0,"; "      G_TYPE_STRING, out1,"] in
  method_args Examples.get_us = rearrange [1; 0] (method_args Examples.get_su) /\
  snd <$> emitted (H:=spec_libglibcodegen) "prefix" "Iface" Examples.get_su
    = Some (head ++ ["    gchar **out0,"; "    guint *out1,"] ++ middle ++ payload ++ tail) /\
  snd <$> emitted (H:=spec_libglibcodegen) "prefix" "Iface" Examples.get_us
    = Some (head ++ ["    guint *out0,"; "    gchar **out1,"] ++ middle ++ payload' ++ tail) /\
  rearrange [1; 0] payload = ["      G_TYPE_UINT, out1,"; "      G_TYPE_STRING, out0,"] /\
  bool_decide (payload' = rearrange [1; 0] payload) = false.
Proof. repeat split; vm_compute; reflexivity. Qed.

(** C3, amended. For a method whose wire types all resolve, the call payload
    is the comment line, one line per in-argument in schema declaration
    order, the end-of-input sentinel [G_TYPE_INVALID,], the comment line, one
    line per out-argument in schema declaration order, and the end-of-output
    sentinel [G_TYPE_INVALID);].  Rearranging the in-arguments among
    themselves rearranges their payload lines identically; rearranging the
    out-arguments among themselves rearranges their marshalling tags
    identically, and their whole payload lines when every out-argument is
    named. *)
Theorem C3_call_payload `{Libglibcodegen} prefix iface method locals method' locals'
    sigma_in sigma_out :
  collect_args method = Some locals ->
  collect_args method' = Some locals' ->
  ins_of (method_args method') = rearrange sigma_in (ins_of (method_args method)) ->
  outs_of (method_args method') = rearrange sigma_out (outs_of (method_args method)) ->
  (exists decl stub_head,
     emitted prefix iface method
     = Some (decl,
             stub_head ++
             ["      /* in arguments */"] ++ (payload_item <$> in_args locals) ++
             ["      G_TYPE_INVALID,"; "      /* out arguments */"] ++
             (payload_item <$> out_args locals) ++
             ["      G_TYPE_INVALID);"; "}"; ""; ""])) /\
  Forall2 resolves (ins_of (method_args method)) (in_args locals) /\
  entry_name <$> in_args locals = in_name <$> ins_of (method_args method) /\
  Forall2 resolves (outs_of (method_args method)) (out_args locals) /\
  entry_name <$> out_args locals = out_names 0 (outs_of (method_args method)) /\
  payload_item <$> in_args locals' = rearrange sigma_in (payload_item <$> in_args locals) /\
  (info_gtype ∘ entry_info) <$> out_args locals'
    = rearrange sigma_out ((info_gtype ∘ entry_info) <$> out_args locals) /\
  (Forall (fun a => ~ unnamed a) (outs_of (method_args method)) ->
   payload_item <$> out_args locals'
     = rearrange sigma_out (payload_item <$> out_args locals)).
Proof.
  intros Hc Hc' Hins Houts.
  destruct (collect_args_spec _ _ Hc) as (Hri & Hro & Hni & Hno).
  destruct (collect_args_spec _ _ Hc') as (Hri' & Hro' & Hni' & Hno').
  split; [|repeat split; try done].
  - rewrite emitted_spec. unfold method_text. rewrite Hc. simpl.
    eexists _, ([_] ++ param_lines (in_args locals) (out_args locals)
                  ++ [_; _; _; _; _; _; _; _; _; _; _]).
    unfold method_defn, call_payload.
    do 2 f_equal. repeat (simpl; rewrite <-app_assoc). reflexivity.
  - rewrite <-rearrange_fmap. f_equal.
    pose proof (Forall2_with_names _ _ _ _ _ Hri Hni) as HR.
    pose proof (Forall2_with_names _ _ _ _ _ Hri' Hni') as HR'.
    rewrite Hins in HR'.
    refine (rearrange_Forall2 _ _ _ _ _ _ HR HR').
    intros a e e' [Hr Hn] [Hr' Hn']. eapply resolves_entry_eq; eauto. congruence.
  - rewrite Houts in Hro'.
    set (R := fun (a : Node) (t : string) =>
                info_gtype <$> type_to_gtype (getAttribute a "type") = Some t).
    assert (forall l k, Forall2 resolves l k ->
              Forall2 R l ((info_gtype ∘ entry_info) <$> k)) as Htags.
    { intros l k Hlk. apply Forall2_fmap_r. eapply Forall2_impl; [exact Hlk|].
      intros a e [Hi _]. unfold R. by rewrite Hi. }
    refine (rearrange_Forall2 R _ _ _ _ _ (Htags _ _ Hro) (Htags _ _ Hro')).
    unfold R. intros a t t' Ht Ht'. congruence.
  - intros Hnamed.
    rewrite <-rearrange_fmap. f_equal.
    rewrite out_names_all_named in Hno by done.
    rewrite out_names_all_named in Hno'
      by (rewrite Houts; by apply rearrange_Forall).
    pose proof (Forall2_with_names _ _ _ _ _ Hro Hno) as HR.
    pose proof (Forall2_with_names _ _ _ _ _ Hro' Hno') as HR'.
    rewrite Houts in HR'.
    refine (rearrange_Forall2 _ _ _ _ _ _ HR HR').
    intros a e e' [Hr Hn] [Hr' Hn']. eapply resolves_entry_eq; eauto. congruence.
Qed.

(** The method [Call(in a, in b, out c)] and the same method with [a] and
    [b] swapped: the in-part of the payload is swapped with them. *)
Lemma C3_call_payload_witness :
  payload_item <$> in_args Examples.locals_ba_c
  = rearrange [1; 0] (payload_item <$> in_args Examples.locals_ab_c).
Proof.
  destruct (C3_call_payload (H:=spec_libglibcodegen) "prefix" "Iface"
              Examples.call_ab_c Examples.locals_ab_c
              Examples.call_ba_c Examples.locals_ba_c [1; 0] [0])
    as (_ & _ & _ & _ & _ & Hin & _ & _);
    [vm_compute; reflexivity..|exact Hin].
Defined.

(** ** The end-to-end scenario *)

(** C4 as stated fails: the header generated for the interface [Example]
    with the method [DoThing] never mentions [prefix_example_block_on_dothing]
    (the member name is normalised to [do_thing]), and the parameter list of
    the stub starts with the proxy, [in_value] being its second parameter. *)
Lemma C4_counterexample :
  let header :=
    main (H:=spec_libglibcodegen) Examples.example_schema "prefix" "gen" ∅
      ≫= (.!! "gen.h") in
  Py.contains "prefix_example_block_on_dothing" <$> header = Some false /\
  Py.contains ("prefix_example_block_on_do_thing (gpointer *proxy," +:+ Py.nl
                 +:+ "    gint in_value,") <$> header = Some true /\
  Py.contains "(gint in_value" <$> header = Some false.
Proof. repeat split; vm_compute; reflexivity. Qed.

(** C4, amended. For the schema with the one interface [Example] holding the
    one method [DoThing] with in-argument [(value, i)] and an unnamed
    out-argument of type [s], run with prefix [prefix]: the header holds the
    registration helper [prefix_add_signals_for_example] and the prototype
    [gboolean prefix_example_block_on_<do_thing> (gpointer *proxy, <int32>
    in_value, <string> *out0, GError **error);], where [<do_thing>] is the
    normalised member name and the two storage types are those of the mapping
    table; the body holds the definition, whose payload is [in_value], the
    end-of-input sentinel, [out0], the end-of-output sentinel. *)
Theorem C4_end_to_end (L : Libglibcodegen) (ci gi mi : string) (pi : bool)
    (cs gs ms : string) (ps : bool) (fs : gmap string string) :
  type_to_gtype "i" = Some (ci, gi, mi, pi) ->
  type_to_gtype "s" = Some (cs, gs, ms, ps) ->
  let stub :=
    "prefix_example_block_on_" +:+ camelcase_to_lower "DoThing" +:+ " (gpointer *proxy," in
  let params :=
    ["    " +:+ (if pi then "const " else "") +:+ ci +:+ "in_value,";
     "    " +:+ cs +:+ "*out0,"] in
  (fs' ← main Examples.example_schema "prefix" "gen" fs;
   Some (fs' !! "gen.h", fs' !! "gen.c"))
  = Some
      (Some (Py.join Py.nl
         (["#include <dbus/dbus-glib.h>";
           "#include <telepathy-glib/proxy.h>";
           "#include <telepathy-glib/interfaces.h>";
           "";
           "static inline void";
           "prefix_add_signals_for_example (DBusGProxy *proxy)";
           "{";
           "}";
           "";
           "";
           "gboolean " +:+ stub] ++ params ++
          ["    GError **error);";
           "";
           ""])),
       Some (Py.join Py.nl
         (["#include " +:+ Py.dq +:+ "gen.h" +:+ Py.dq;
           "";
           "gboolean" +:+ Py.nl +:+ stub] ++ params ++
          ["    GError **error)";
           "{";
           "  DBusGProxy *iface = tp_proxy_get_interface (";
           "      TP_PROXY (proxy),";
           "      TP_IFACE_QUARK_EXAMPLE,";
           "      error);";
           "";
           "  if (iface == NULL)";
           "    return FALSE;";
           "";
           "  return dbus_g_proxy_call (iface, " +:+ Py.dq +:+ "DoThing" +:+ Py.dq +:+ ", error,";
           "      /* in arguments */";
           "      " +:+ gi +:+ ", in_value,";
           "      G_TYPE_INVALID,";
           "      /* out arguments */";
           "      " +:+ gs +:+ ", out0,";
           "      G_TYPE_INVALID);";
           "}";
           "";
           ""]))).
Proof.
  intros Hi Hs stub params.
  assert (collect_args Examples.do_thing
          = Some (mkLocals 1 [("in_value", (ci, gi, mi, pi), "")]
                             [("out0", (cs, gs, ms, ps), "")])) as Hc.
  { unfold collect_args.
    change (getElementsByTagName Examples.do_thing "arg")
      with [Examples.arg "value" "i" "in"; Examples.arg "" "s" "out"].
    cbn [arg_loop]. unfold arg_step.
    change (getAttribute (Examples.arg "value" "i" "in") "type") with "i".
    change (getAttribute (Examples.arg "" "s" "out") "type") with "s".
    rewrite Hi. cbn [mbind option_bind]. rewrite Hs. reflexivity. }
  change (main Examples.example_schema "prefix" "gen" fs ≫= _)
    with (fs' ← main Examples.example_schema "prefix" "gen" fs;
          Some (fs' !! ("gen" +:+ ".h"), fs' !! ("gen" +:+ ".c"))).
  rewrite main_artifacts. unfold call_text.
  change (sorted_ifaces Examples.example_schema)
    with [Examples.iface_node "Example" [Examples.do_thing]].
  cbn [mapM]. unfold interface_text.
  change (getElementsByTagName (Examples.iface_node "Example" [Examples.do_thing]) "interface")
    with [Examples.elem "interface" [("name", "org.freedesktop.Telepathy.Example")]
            [Examples.do_thing]].
  change (getElementsByTagName (Examples.iface_node "Example" [Examples.do_thing]) "signal")
    with (@nil Node).
  change (getElementsByTagName (Examples.iface_node "Example" [Examples.do_thing]) "method")
    with [Examples.do_thing].
  cbn [mapM length bool_decide decide_rel]. unfold method_text. rewrite Hc.
  reflexivity.
Qed.

(** The scenario under the mapping table and the normaliser modelled from
    the spec: [gint in_value] and [gchar **out0], stub [..._do_thing]. *)
Lemma C4_end_to_end_witness :
  (fs' ← main (H:=spec_libglibcodegen) Examples.example_schema "prefix" "gen" ∅;
   Some (fs' !! "gen.h", fs' !! "gen.c"))
  = Some
      (Some (Py.join Py.nl
         ["#include <dbus/dbus-glib.h>";
          "#include <telepathy-glib/proxy.h>";
          "#include <telepathy-glib/interfaces.h>";
          "";
          "static inline void";
          "prefix_add_signals_for_example (DBusGProxy *proxy)";
          "{";
          "}";
          "";
          "";
          "gboolean prefix_example_block_on_do_thing (gpointer *proxy,";
          "    gint in_value,";
          "    gchar **out0,";
          "    GError **error);";
          "";
          ""]),
       Some (Py.join Py.nl
         ["#include " +:+ Py.dq +:+ "gen.h" +:+ Py.dq;
          "";
          "gboolean" +:+ Py.nl +:+ "prefix_example_block_on_do_thing (gpointer *proxy,";
          "    gint in_value,";
          "    gchar **out0,";
          "    GError **error)";
          "{";
          "  DBusGProxy *iface = tp_proxy_get_interface (";
          "      TP_PROXY (proxy),";
          "      TP_IFACE_QUARK_EXAMPLE,";
          "      error);";
          "";
          "  if (iface == NULL)";
          "    return FALSE;";
          "";
          "  return dbus_g_proxy_call (iface, " +:+ Py.dq +:+ "DoThing" +:+ Py.dq +:+ ", error,";
          "      /* in arguments */";
          "      G_TYPE_INT, in_value,";
          "      G_TYPE_INVALID,";
          "      /* out arguments */";
          "      G_TYPE_STRING, out0,";
          "      G_TYPE_INVALID);";
          "}";
          "";
          ""])).
Proof.
  exact (C4_end_to_end spec_libglibcodegen "gint " "G_TYPE_INT" "INT" false
           "gchar *" "G_TYPE_STRING" "STRING" true ∅ eq_refl eq_refl).
Defined.

(** ** The names of the arguments *)

(** A decimal numeral does not start with an underscore. *)
Lemma pretty_N_go_no_underscore (x : N) (s s' : string) :
  s <> "_" +:+ s' -> pretty_N_go x s <> "_" +:+ s'.
Proof.
  revert s. induction (N.lt_wf_0 x) as [x _ IH]. intros s Hs.
  destruct (decide (x = 0%N)) as [->|Hx].
  - by rewrite pretty_N_go_0.
  - rewrite pretty_N_go_step by lia. apply IH; [apply N.div_lt; lia|].
    unfold pretty_N_char. repeat case_match; discriminate.
Qed.

Lemma fmt_u_no_underscore (n : nat) (s : string) : Py.fmt_u n <> "_" +:+ s.
Proof.
  unfold Py.fmt_u, pretty, pretty_nat, pretty, pretty_N.
  case_decide; [discriminate|]. by apply pretty_N_go_no_underscore.
Qed.

Lemma synthesized_name_inj (k k' : nat) :
  "out" +:+ Py.fmt_u k = "out" +:+ Py.fmt_u k' -> k = k'.
Proof. intros Heq. apply (inj (String.app "out")) in Heq. by apply (inj pretty) in Heq. Qed.

Lemma synthesized_name_not_named (k : nat) (s : string) :
  "out" +:+ Py.fmt_u k <> "out_" +:+ s.
Proof.
  intros Heq. apply (inj (String.app "out") _ ("_" +:+ s)) in Heq.
  by apply fmt_u_no_underscore in Heq.
Qed.

Section name_results.
Context `{Libglibcodegen}.

Lemma out_names_lookup k outs j :
  out_names k outs !! j = out_name k outs j <$> outs !! j.
Proof. unfold out_names. apply list_lookup_imap. Qed.

(** The ordinal grows at every unnamed out-argument. *)
Lemma ordinal_lt (outs : list Node) : forall i j a,
  i < j -> outs !! i = Some a -> unnamed a ->
  length (filter unnamed (take i outs)) < length (filter unnamed (take j outs)).
Proof.
  induction outs as [|x outs IH]; intros i j a Hij Hi Ha; [done|].
  destruct j as [|j]; [lia|]. destruct i as [|i]; simpl in *.
  - injection Hi as ->. rewrite filter_cons_True by done. simpl. lia.
  - rewrite !(filter_cons unnamed x).
    assert (i < j) as Hij' by lia. pose proof (IH i j a Hij' Hi Ha).
    destruct (decide (unnamed x)); simpl; lia.
Qed.

Lemma ordinal_ne (outs : list Node) i j a b :
  i <> j -> outs !! i = Some a -> unnamed a -> outs !! j = Some b -> unnamed b ->
  length (filter unnamed (take i outs)) <> length (filter unnamed (take j outs)).
Proof.
  intros Hij Hi Ha Hj Hb. destruct (decide (i < j)) as [Hlt|Hge].
  - pose proof (ordinal_lt outs i j a Hlt Hi Ha). lia.
  - assert (j < i) as Hlt by lia.
    pose proof (ordinal_lt outs j i b Hlt Hj Hb). lia.
Qed.

End name_results.

(** C5. Unnamed out-argument numbering: within one method, the out-argument
    at position [j] of the out-arguments that has an empty name is given the
    name ["out"] followed by the decimal count of the unnamed out-arguments
    before it (the counter starts at 0 in every method and counts unnamed
    out-arguments only); a named one is given ["out_" + name].  The
    synthesized name differs from the name of every other out-argument and
    of every in-argument of the method, and a method whose out-arguments are
    two unnamed ones yields [out0], [out1] in declaration order. *)
Theorem C5_unnamed_out_numbering `{Libglibcodegen} method locals :
  collect_args method = Some locals ->
  let outs := outs_of (method_args method) in
  let names := entry_name <$> out_args locals in
  let ordinal j := length (filter unnamed (take j outs)) in
  length names = length outs /\
  (forall j a, outs !! j = Some a -> unnamed a ->
     names !! j = Some ("out" +:+ Py.fmt_u (ordinal j))) /\
  (forall j a, outs !! j = Some a -> ~ unnamed a ->
     names !! j = Some ("out_" +:+ getAttribute a "name")) /\
  (forall i j a n n', i <> j -> outs !! i = Some a -> unnamed a ->
     names !! i = Some n -> names !! j = Some n' -> n <> n') /\
  (forall i a n, outs !! i = Some a -> unnamed a -> names !! i = Some n ->
     n ∉ entry_name <$> in_args locals) /\
  (forall a b, outs = [a; b] -> unnamed a -> unnamed b -> names = ["out0"; "out1"]).
Proof.
  intros Hc outs names ordinal.
  destruct (collect_args_spec _ _ Hc) as (_ & _ & Hni & Hno).
  fold outs in Hno. fold names in Hno.
  assert (forall j a, outs !! j = Some a -> unnamed a ->
            names !! j = Some ("out" +:+ Py.fmt_u (ordinal j))) as Hun.
  { intros j a Hj Ha. rewrite Hno, out_names_lookup, Hj. simpl.
    unfold out_name. by rewrite decide_True. }
  assert (forall j a, outs !! j = Some a -> ~ unnamed a ->
            names !! j = Some ("out_" +:+ getAttribute a "name")) as Hnm.
  { intros j a Hj Ha. rewrite Hno, out_names_lookup, Hj. simpl.
    unfold out_name. by rewrite decide_False. }
  split; [by rewrite Hno; unfold out_names; rewrite length_imap|].
  split; [done|]. split; [done|]. split; [|split].
  - intros i j a n n' Hij Hi Ha Hn Hn'.
    rewrite (Hun i a Hi Ha) in Hn. injection Hn as <-.
    destruct (outs !! j) as [b|] eqn:Hj.
    + destruct (decide (unnamed b)) as [Hb|Hb].
      * rewrite (Hun j b Hj Hb) in Hn'. injection Hn' as <-.
        intros Heq%synthesized_name_inj. by eapply (ordinal_ne outs i j a b).
      * rewrite (Hnm j b Hj Hb) in Hn'. injection Hn' as <-.
        apply synthesized_name_not_named.
    + rewrite Hno, out_names_lookup, Hj in Hn'. done.
  - intros i a n Hi Ha Hn. rewrite (Hun i a Hi Ha) in Hn. injection Hn as <-.
    rewrite Hni. intros (b & Hb & _)%list_elem_of_fmap. discriminate Hb.
  - intros a b Hab Ha Hb. rewrite Hno, Hab.
    rewrite out_names_cons_unnamed by done. rewrite out_names_cons_unnamed by done.
    reflexivity.
Qed.

(** The method returning an unnamed string and an unnamed unsigned integer:
    the two out-arguments are called [out0] and [out1]. *)
Lemma C5_unnamed_out_numbering_witness :
  collect_args (H:=spec_libglibcodegen) Examples.get_su = Some Examples.locals_su /\
  entry_name <$> out_args Examples.locals_su = ["out0"; "out1"].
Proof.
  assert (collect_args (H:=spec_libglibcodegen) Examples.get_su
          = Some Examples.locals_su) as Hc by (vm_compute; reflexivity).
  split; [exact Hc|].
  destruct (C5_unnamed_out_numbering Examples.get_su Examples.locals_su Hc)
    as (_ & _ & _ & _ & _ & Htwo).
  apply (Htwo (Examples.unnamed_arg "s" "out") (Examples.unnamed_arg "u" "out"));
    vm_compute; reflexivity.
Defined.

(** ** The parameter list and the body of a stub *)

(** C6, as the claim states it, fails: the parameter list of a stub does
    not start with the in-arguments.  The stub of a method without arguments
    has two parameters, the proxy and the error output; the claim gives it
    the error output alone. *)
Lemma C6_counterexample :
  method_args Examples.ping = [] /\
  collect_args (H:=spec_libglibcodegen) Examples.ping = Some (mkLocals 0 [] []) /\
  emitted (H:=spec_libglibcodegen) "prefix" "Iface" Examples.ping
  = Some (["gboolean prefix_iface_block_on_ping (gpointer *proxy,";
           "    GError **error);";
           "";
           ""],
          ["gboolean" +:+ Py.nl +:+ "prefix_iface_block_on_ping (gpointer *proxy,";
           "    GError **error)";
           "{";
           "  DBusGProxy *iface = tp_proxy_get_interface (";
           "      TP_PROXY (proxy),";
           "      TP_IFACE_QUARK_IFACE,";
           "      error);";
           "";
           "  if (iface == NULL)";
           "    return FALSE;";
           "";
           "  return dbus_g_proxy_call (iface, " +:+ Py.dq +:+ "Ping" +:+ Py.dq +:+ ", error,";
           "      /* in arguments */";
           "      G_TYPE_INVALID,";
           "      /* out arguments */";
           "      G_TYPE_INVALID);";
           "}";
           "";
           ""]).
Proof. repeat split; vm_compute; reflexivity. Qed.

(** C6, amended. Parameter list shape: in the header and in the body alike,
    the parameter list of a stub opens with the proxy, [gpointer *proxy],
    on the line that names the stub; then comes one line per in-argument in
    schema order, [const]-qualified exactly when the pointer flag of its
    mapping is set, then one line per out-argument in schema order with a
    [*] between the storage type and the name whatever the pointer flag is,
    then the single line [GError **error] closing the list. *)
Theorem C6_parameter_list `{Libglibcodegen} prefix iface method locals :
  collect_args method = Some locals ->
  let member := getAttribute method "name" in
  let param_in (e : arg_entry) :=
    "    " +:+ (if info_pointer (entry_info e) then "const " else "")
      +:+ info_ctype (entry_info e) +:+ entry_name e +:+ "," in
  let param_out (e : arg_entry) :=
    "    " +:+ info_ctype (entry_info e) +:+ "*" +:+ entry_name e +:+ "," in
  (exists statements,
     emitted prefix iface method
     = Some (["gboolean " +:+ Py.lower prefix +:+ "_" +:+ Py.lower iface
                +:+ "_block_on_" +:+ camelcase_to_lower member +:+ " (gpointer *proxy,"] ++
             (param_in <$> in_args locals) ++ (param_out <$> out_args locals) ++
             ["    GError **error);"; ""; ""],
             ["gboolean" +:+ Py.nl +:+ Py.lower prefix +:+ "_" +:+ Py.lower iface
                +:+ "_block_on_" +:+ camelcase_to_lower member +:+ " (gpointer *proxy,"] ++
             (param_in <$> in_args locals) ++ (param_out <$> out_args locals) ++
             ["    GError **error)"] ++ statements)) /\
  Forall2 resolves (ins_of (method_args method)) (in_args locals) /\
  entry_name <$> in_args locals = in_name <$> ins_of (method_args method) /\
  Forall2 resolves (outs_of (method_args method)) (out_args locals) /\
  entry_name <$> out_args locals = out_names 0 (outs_of (method_args method)).
Proof.
  intros Hc member param_in param_out.
  destruct (collect_args_spec _ _ Hc) as (Hri & Hro & Hni & Hno).
  split; [|done].
  rewrite emitted_spec. unfold method_text. rewrite Hc.
  eexists. cbn [fmap option_fmap option_map].
  unfold method_decl, method_defn, param_lines, stub_open.
  do 2 f_equal.
  - by rewrite <-app_assoc.
  - repeat (simpl; rewrite <-app_assoc). reflexivity.
Qed.

(** [Call(in a: s, in b: u, out c: i)]: a pointer-passed in-argument, one
    passed by value, and an out-argument of a by-value type. *)
Lemma C6_parameter_list_witness :
  fst <$> emitted (H:=spec_libglibcodegen) "prefix" "Iface" Examples.call_ab_c
  = Some ["gboolean prefix_iface_block_on_call (gpointer *proxy,";
          "    const gchar *in_a,";
          "    guint in_b,";
          "    gint *out_c,";
          "    GError **error);";
          "";
          ""].
Proof.
  destruct (C6_parameter_list (H:=spec_libglibcodegen) "prefix" "Iface"
              Examples.call_ab_c Examples.locals_ab_c)
    as [[statements Hemit] _]; [vm_compute; reflexivity|].
  rewrite Hemit. vm_compute. reflexivity.
Defined.

(** C7. Stub body: after the parameter list, the body of every stub is the
    lookup of the proxy of the interface by [TP_IFACE_QUARK_<IFACE>], the
    test [if (iface == NULL) return FALSE;], and the single statement
    [return dbus_g_proxy_call (iface, "<member>", error, ...);] whose
    selector is the [name] attribute of the method as the schema spells it
    (the stub's own name uses the normalised one), followed by the payload. *)
Theorem C7_stub_body `{Libglibcodegen} prefix iface method locals :
  collect_args method = Some locals ->
  let member := getAttribute method "name" in
  exists decl,
    emitted prefix iface method
    = Some (decl,
            ["gboolean" +:+ Py.nl +:+ Py.lower prefix +:+ "_" +:+ Py.lower iface
               +:+ "_block_on_" +:+ camelcase_to_lower member +:+ " (gpointer *proxy,"] ++
            param_lines (in_args locals) (out_args locals) ++
            ["    GError **error)";
             "{";
             "  DBusGProxy *iface = tp_proxy_get_interface (";
             "      TP_PROXY (proxy),";
             "      TP_IFACE_QUARK_" +:+ Py.upper (Py.lower iface) +:+ ",";
             "      error);";
             "";
             "  if (iface == NULL)";
             "    return FALSE;";
             "";
             "  return dbus_g_proxy_call (iface, " +:+ Py.dq +:+ member +:+ Py.dq +:+ ", error,";
             "      /* in arguments */"] ++
            (payload_item <$> in_args locals) ++
            ["      G_TYPE_INVALID,";
             "      /* out arguments */"] ++
            (payload_item <$> out_args locals) ++
            ["      G_TYPE_INVALID);";
             "}";
             "";
             ""]).
Proof.
  intros Hc member. rewrite emitted_spec. unfold method_text. rewrite Hc.
  eexists. cbn [fmap option_fmap option_map].
  unfold method_defn, call_payload, stub_open.
  do 2 f_equal. repeat (simpl; rewrite <-app_assoc). reflexivity.
Qed.

(** The stub of [DoThing] in the interface [Example]: the quark is
    [TP_IFACE_QUARK_EXAMPLE] and the selector is [DoThing], not [do_thing]. *)
Lemma C7_stub_body_witness :
  snd <$> emitted (H:=spec_libglibcodegen) "prefix" "Example" Examples.do_thing
  = Some ["gboolean" +:+ Py.nl +:+ "prefix_example_block_on_do_thing (gpointer *proxy,";
          "    gint in_value,";
          "    gchar **out0,";
          "    GError **error)";
          "{";
          "  DBusGProxy *iface = tp_proxy_get_interface (";
          "      TP_PROXY (proxy),";
          "      TP_IFACE_QUARK_EXAMPLE,";
          "      error);";
          "";
          "  if (iface == NULL)";
          "    return FALSE;";
          "";
          "  return dbus_g_proxy_call (iface, " +:+ Py.dq +:+ "DoThing" +:+ Py.dq +:+ ", error,";
          "      /* in arguments */";
          "      G_TYPE_INT, in_value,";
          "      G_TYPE_INVALID,";
          "      /* out arguments */";
          "      G_TYPE_STRING, out0,";
          "      G_TYPE_INVALID);";
          "}";
          "";
          ""].
Proof.
  destruct (C7_stub_body (H:=spec_libglibcodegen) "prefix" "Example" Examples.do_thing
              (mkLocals 1 [("in_value", ("gint ", "G_TYPE_INT", "INT", false), "")]
                          [("out0", ("gchar *", "G_TYPE_STRING", "STRING", true), "")]))
    as (decl & Hemit); [vm_compute; reflexivity|].
  rewrite Hemit. vm_compute. reflexivity.
Defined.

(** ** The registration function of an interface *)

Section registration_results.
Context `{Libglibcodegen}.

Lemma method_defn_lines pfx iface member ins outs :
  Forall not_registration_line (method_defn pfx iface member ins outs).
Proof.
  unfold method_defn, call_payload, param_lines.
  repeat (apply Forall_app; split);
    repeat first
      [ apply Forall_nil_2
      | apply Forall_cons; split; [by split|]
      | apply Forall_fmap, Forall_forall; intros e _; by split ].
Qed.

Lemma method_decl_lines pfx iface member ins outs :
  Forall (fun line => line <> "static inline void")
    (method_decl pfx iface member ins outs).
Proof.
  unfold method_decl, param_lines.
  repeat (apply Forall_app; split);
    repeat first
      [ apply Forall_nil_2
      | apply Forall_cons; split; [done|]
      | apply Forall_fmap, Forall_forall; intros e _; done ].
Qed.

Lemma method_texts_lines pfx iface methods stubs :
  mapM (method_text pfx iface) methods = Some stubs ->
  Forall (fun line => line <> "static inline void") (concat stubs.*1) /\
  Forall not_registration_line (concat stubs.*2).
Proof.
  intros Hm%mapM_Some. induction Hm as [|m [decl defn] ms stubs Hm _ [IH1 IH2]].
  - split; constructor.
  - unfold method_text in Hm. destruct (collect_args m) as [locals|]; [|done].
    injection Hm as <- <-. rewrite !fmap_cons. cbn [fst snd concat].
    split; apply Forall_app; split; auto.
    + apply method_decl_lines.
    + apply method_defn_lines.
Qed.

End registration_results.

(** C8 as stated fails: for an interface with a signal, the registration
    function is in the header, and the body holds neither its first line, nor
    its name, nor any signal registration. *)
Lemma C8_counterexample :
  let out := main (H:=spec_libglibcodegen) Examples.signal_schema "prefix" "gen" ∅ in
  let header := out ≫= (.!! "gen.h") in
  let body := out ≫= (.!! "gen.c") in
  Py.contains ("static inline void" +:+ Py.nl
                 +:+ "prefix_add_signals_for_example (DBusGProxy *proxy)") <$> header
    = Some true /\
  Py.contains "dbus_g_proxy_add_signal" <$> header = Some true /\
  Py.contains "static inline void" <$> body = Some false /\
  Py.contains "prefix_add_signals_for_example" <$> body = Some false /\
  Py.contains "dbus_g_proxy_add_signal" <$> body = Some false.
Proof. repeat split; vm_compute; reflexivity. Qed.

(** C8, amended. For every node that [do_interface] processes without
    raising, the header receives exactly one [static inline void] registration
    function, named after the interface, whose body is, for every signal of
    the node in document order, one [dbus_g_proxy_add_signal] call with the
    signal's name and the marshalling tags of its arguments in order, closed
    by [G_TYPE_INVALID]; the lines that follow in the header are the
    prototypes.  The body receives only the stub definitions, none of the
    lines of the registration function. *)
Theorem C8_signal_registration `{Libglibcodegen} node self self' :
  do_interface node self = Some ((), self') ->
  exists sigs decls defns,
    self' = push self
              (["static inline void";
                prefix_lc self +:+ "_add_signals_for_" +:+ Py.lower (iface_name node)
                  +:+ " (DBusGProxy *proxy)";
                "{"] ++ concat sigs ++ ["}"; ""; ""] ++ decls)
              defns /\
    Forall2
      (fun signal lines =>
         exists gtypes,
           Forall2 (fun arg gtype => signal_tag arg = Some gtype)
             (method_args signal) gtypes /\
           lines = ["  dbus_g_proxy_add_signal (proxy, " +:+ Py.dq
                      +:+ getAttribute signal "name" +:+ Py.dq +:+ ","] ++
                   ((fun gtype => "      " +:+ gtype +:+ ",") <$> gtypes) ++
                   ["      G_TYPE_INVALID);"])
      (getElementsByTagName node "signal") sigs /\
    Forall (fun line => line <> "static inline void") decls /\
    Forall not_registration_line defns.
Proof.
  intros Hrun. rewrite do_interface_runs in Hrun. unfold interface_text in Hrun.
  destruct (bool_decide _); [|done].
  destruct (mapM signal_text _) as [sigs|] eqn:Hsigs; [|done].
  destruct (mapM (method_text _ _) _) as [stubs|] eqn:Hstubs; [|done].
  simpl in Hrun. injection Hrun as <-.
  destruct (method_texts_lines _ _ _ _ Hstubs) as [Hdecls Hdefns].
  exists sigs, (concat stubs.*1), (concat stubs.*2).
  split; [|split; [|done]].
  - unfold registration_block. f_equal. by rewrite <-!app_assoc.
  - apply mapM_Some in Hsigs. eapply Forall2_impl; [exact Hsigs|].
    intros signal lines Hs. unfold signal_text in Hs.
    destruct (mapM signal_tag (method_args signal)) as [gtypes|] eqn:Htags; [|done].
    injection Hs as <-. exists gtypes. split; [by apply mapM_Some|done].
Qed.

(** The interface [Example] with the signal [Changed(u, s)] and the method
    [Ping], on a fresh generator object. *)
Lemma C8_signal_registration_witness :
  exists self',
    do_interface (H:=spec_libglibcodegen)
      (Examples.iface_node "Example"
         [Examples.signal "Changed" [Examples.arg "id" "u" ""; Examples.arg "text" "s" ""];
          Examples.method "Ping" []])
      (init (Document []) "prefix" "gen") = Some ((), self') /\
    take 9 (__header self')
    = ["static inline void";
       "prefix_add_signals_for_example (DBusGProxy *proxy)";
       "{";
       "  dbus_g_proxy_add_signal (proxy, " +:+ Py.dq +:+ "Changed" +:+ Py.dq +:+ ",";
       "      G_TYPE_UINT,";
       "      G_TYPE_STRING,";
       "      G_TYPE_INVALID);";
       "}";
       ""] /\
    Forall not_registration_line (__body self').
Proof.
  eexists. split; [vm_compute; reflexivity|]. split; [vm_compute; reflexivity|].
  match goal with
  | |- Forall _ (__body ?s) =>
      destruct (C8_signal_registration (H:=spec_libglibcodegen)
                  (Examples.iface_node "Example"
                     [Examples.signal "Changed"
                        [Examples.arg "id" "u" ""; Examples.arg "text" "s" ""];
                      Examples.method "Ping" []])
                  (init (Document []) "prefix" "gen") s)
        as (sigs & decls & defns & Hpush & _ & _ & Hdefns)
  end; [vm_compute; reflexivity|].
  rewrite Hpush. exact Hdefns.
Defined.

(** ** Directions *)

(** C9. Direction classification: the first loop of [do_method] puts an
    argument into [out_args] exactly when its [direction] attribute is the
    string ["out"], and into [in_args] otherwise; an argument without a
    [direction] attribute reads as [""] and is an in-argument.  The loop
    raises only when a wire type is missing from the mapping table, never
    because of a direction.  In the method [Mixed], the arguments whose
    direction is absent, ["OUT"], [" out"] or ["inout"] are in-arguments. *)
Theorem C9_direction_classification `{Libglibcodegen} method :
  let args := method_args method in
  (is_Some (collect_args method) <-> all_resolve args) /\
  (forall locals, collect_args method = Some locals ->
     Forall2 resolves (filter (fun a => getAttribute a "direction" = "out") args)
       (out_args locals) /\
     Forall2 resolves (filter (fun a => getAttribute a "direction" <> "out") args)
       (in_args locals) /\
     entry_name <$> in_args locals
       = (fun a => "in_" +:+ getAttribute a "name")
         <$> filter (fun a => getAttribute a "direction" <> "out") args) /\
  (forall tag (attrs : gmap string string) children,
     attrs !! "direction" = None ->
     getAttribute (Element tag attrs children) "direction" = "" /\
     (Element tag attrs children ∈ args ->
      Element tag attrs children
        ∈ filter (fun a => getAttribute a "direction" <> "out") args)) /\
  ((fun locals => entry_name <$> in_args locals)
     <$> collect_args (H:=spec_libglibcodegen) Examples.mixed_directions
     = Some ["in_a"; "in_c"; "in_d"; "in_e"; "in_f"] /\
   (fun locals => entry_name <$> out_args locals)
     <$> collect_args (H:=spec_libglibcodegen) Examples.mixed_directions
     = Some ["out_b"]).
Proof.
  intros args. split; [apply collect_args_is_Some|]. split; [|split].
  - intros locals Hc. destruct (collect_args_spec _ _ Hc) as (Hri & Hro & Hni & _).
    split; [exact Hro|]. split; [exact Hri|exact Hni].
  - intros tag attrs children Hd.
    assert (getAttribute (Element tag attrs children) "direction" = "") as Hempty.
    { unfold getAttribute. by rewrite Hd. }
    split; [done|]. intros Hin. apply list_elem_of_filter. split; [|done].
    by rewrite Hempty.
  - split; vm_compute; reflexivity.
Qed.

(** C10. Unnamed in-arguments: the generated name of every in-argument is
    ["in_"] followed by its [name] attribute, also when that is empty, so
    every unnamed in-argument is called ["in_"], and a method with two
    unnamed in-arguments has two parameters of the same name; no counter
    is involved for in-arguments. *)
Theorem C10_unnamed_in_collision `{Libglibcodegen} method locals :
  collect_args method = Some locals ->
  let ins := ins_of (method_args method) in
  let names := entry_name <$> in_args locals in
  names = (fun a => "in_" +:+ getAttribute a "name") <$> ins /\
  (forall i a, ins !! i = Some a -> unnamed a -> names !! i = Some "in_") /\
  (forall i j a b, i <> j -> ins !! i = Some a -> ins !! j = Some b ->
     unnamed a -> unnamed b -> ~ NoDup names).
Proof.
  intros Hc ins names.
  destruct (collect_args_spec _ _ Hc) as (_ & _ & Hni & _).
  fold ins in Hni. fold names in Hni.
  assert (forall i a, ins !! i = Some a -> unnamed a -> names !! i = Some "in_") as Hun.
  { intros i a Hi Ha. rewrite Hni, list_lookup_fmap, Hi. simpl.
    unfold in_name. unfold unnamed in Ha. by rewrite Ha. }
  split; [exact Hni|]. split; [exact Hun|].
  intros i j a b Hij Hi Hj Ha Hb Hnd.
  apply Hij. eapply NoDup_lookup; [exact Hnd|by eapply Hun..].
Qed.

(** [SetPair] takes two unnamed in-arguments: both are called [in_]. *)
Lemma C10_unnamed_in_collision_witness :
  collect_args (H:=spec_libglibcodegen) Examples.set_pair = Some Examples.locals_set_pair /\
  entry_name <$> in_args Examples.locals_set_pair = ["in_"; "in_"] /\
  ~ NoDup (entry_name <$> in_args Examples.locals_set_pair).
Proof.
  assert (collect_args (H:=spec_libglibcodegen) Examples.set_pair
          = Some Examples.locals_set_pair) as Hc by (vm_compute; reflexivity).
  destruct (C10_unnamed_in_collision Examples.set_pair Examples.locals_set_pair Hc)
    as (Hnames & _ & Hdup).
  split; [exact Hc|]. split; [rewrite Hnames; vm_compute; reflexivity|].
  apply (Hdup 0 1 (Examples.unnamed_arg "u" "in") (Examples.unnamed_arg "s" "in"));
    [lia|vm_compute; reflexivity..].
Defined.

(** * Further results on the generator *)

Section script_results.
Context `{Libglibcodegen} {File : Type} `{Countable File}.
Context (resolve : string -> File).







(** X3. A document without any [node] element is not an error: the run
    writes the three [#include] lines and an empty line to the header, and
    the [#include] of the header and an empty line to the body. *)
Theorem X3_no_interfaces dom prefix basename (fs : gmap string string) :
  getElementsByTagName dom "node" = [] ->
  main dom prefix basename fs
  = Some (write_file (basename +:+ ".c")
            (Py.join Py.nl ["#include " +:+ Py.dq +:+ basename +:+ ".h" +:+ Py.dq; ""])
            (write_file (basename +:+ ".h")
               (Py.join Py.nl
                  ["#include <dbus/dbus-glib.h>";
                   "#include <telepathy-glib/proxy.h>";
                   "#include <telepathy-glib/interfaces.h>";
                   ""])
               fs)).
Proof.
  intros Hnone. rewrite main_spec. unfold call_text, sorted_ifaces. by rewrite Hnone.
Qed.

End script_results.


Lemma X3_no_interfaces_witness :
  main (H:=spec_libglibcodegen) (Document []) "prefix" "gen" ∅ ≫= (.!! "gen.c")
  = Some ("#include " +:+ Py.dq +:+ "gen.h" +:+ Py.dq +:+ Py.nl).
Proof.
  rewrite (X3_no_interfaces (H:=spec_libglibcodegen) (Document []) "prefix" "gen" ∅ eq_refl).
  vm_compute. reflexivity.
Defined.

Lemma lower_char_idemp c : Py.lower_char (Py.lower_char c) = Py.lower_char c.
Proof. destruct c as [[] [] [] [] [] [] [] []]; reflexivity. Qed.

Lemma lower_idemp s : Py.lower (Py.lower s) = Py.lower s.
Proof.
  unfold Py.lower. induction s as [|c s IH]; simpl; [done|].
  by rewrite lower_char_idemp, IH.
Qed.

(** X4. The prefix reaches the generated text only through [prefix.lower()]
    ([prefix_uc] and [prefix_mc] are computed and never used): prefixes that
    differ only in the case of ASCII letters give the same two files, and
    lowering the prefix beforehand changes nothing. *)
Theorem X4_prefix_case `{Libglibcodegen} dom prefix basename (fs : gmap string string) :
  main dom (Py.lower prefix) basename fs = main dom prefix basename fs /\
  (forall prefix', Py.lower prefix' = Py.lower prefix ->
     main dom prefix' basename fs = main dom prefix basename fs).
Proof.
  split.
  - by rewrite !main_spec, lower_idemp.
  - intros prefix' Hp. by rewrite !main_spec, Hp.
Qed.

(** ** What the stubs do not depend on *)

Section wire_results.
Context `{Libglibcodegen}.

Lemma arg_step_same_wire st st' a a' :
  same_locals st st' -> same_wire a a' ->
  option_Forall2 same_locals (arg_step st a) (arg_step st' a').
Proof.
  intros (Hrc & Hin & Hout) (Hn & Hd & Ht). unfold arg_step.
  rewrite <-Hn, <-Hd, <-Ht, <-Hrc.
  destruct (type_to_gtype (getAttribute a "type")) as [info|]; simpl.
  - repeat case_match; simplify_eq; constructor; (split; [done|]); simpl;
      rewrite ?fmap_app; simpl; split; congruence.
  - repeat case_match; constructor.
Qed.

Lemma arg_loop_same_wire args : forall args' st st',
  same_locals st st' -> Forall2 same_wire args args' ->
  option_Forall2 same_locals (arg_loop st args) (arg_loop st' args').
Proof.
  induction args as [|a args IH]; intros args' st st' Hst Hargs;
    inversion Hargs as [|? a' ? args'' Ha Hrest]; subst; simpl.
  - by constructor.
  - destruct (arg_step_same_wire st st' a a' Hst Ha) as [st1 st1' Hst1|]; simpl.
    + by apply IH.
    + constructor.
Qed.

Lemma in_param_strip (l l' : list arg_entry) :
  strip_tp <$> l = strip_tp <$> l' -> in_param <$> l = in_param <$> l'.
Proof.
  intros Hs.
  assert (forall k : list arg_entry, in_param <$> k = (fun p => in_param (p, "")) <$> (strip_tp <$> k)) as Hk.
  { intros k. rewrite <-list_fmap_compose. apply list_fmap_ext. by intros _ [[? ?] ?] _. }
  by rewrite (Hk l), (Hk l'), Hs.
Qed.

Lemma out_param_strip (l l' : list arg_entry) :
  strip_tp <$> l = strip_tp <$> l' -> out_param <$> l = out_param <$> l'.
Proof.
  intros Hs.
  assert (forall k : list arg_entry, out_param <$> k = (fun p => out_param (p, "")) <$> (strip_tp <$> k)) as Hk.
  { intros k. rewrite <-list_fmap_compose. apply list_fmap_ext. by intros _ [[? ?] ?] _. }
  by rewrite (Hk l), (Hk l'), Hs.
Qed.

Lemma payload_item_strip (l l' : list arg_entry) :
  strip_tp <$> l = strip_tp <$> l' -> payload_item <$> l = payload_item <$> l'.
Proof.
  intros Hs.
  assert (forall k : list arg_entry, payload_item <$> k
                    = (fun p => payload_item (p, "")) <$> (strip_tp <$> k)) as Hk.
  { intros k. rewrite <-list_fmap_compose. apply list_fmap_ext. by intros _ [[? ?] ?] _. }
  by rewrite (Hk l), (Hk l'), Hs.
Qed.

(** X5. The stub of a method depends on the method's [name] and, for each
    [arg] element below it in order, on the [name], [direction] and [type]
    attributes only: the semantic type [tp:type], which the loop reads into
    every entry, and anything else an [arg] carries never reach the header
    or the body, and a method raises with the one if it raises with the
    other. *)
Theorem X5_stub_ignores_tp_type prefix iface method method' :
  getAttribute method "name" = getAttribute method' "name" ->
  Forall2 same_wire (method_args method) (method_args method') ->
  emitted prefix iface method = emitted prefix iface method'.
Proof.
  intros Hname Hargs. rewrite !emitted_spec. unfold method_text, collect_args.
  fold (method_args method). fold (method_args method').
  assert (same_locals (mkLocals 0 [] []) (mkLocals 0 [] [])) as H0 by done.
  destruct (arg_loop_same_wire _ _ _ _ H0 Hargs) as [st st' (_ & Hin & Hout)|];
    simpl; [|done].
  rewrite <-Hname. unfold method_decl, method_defn, param_lines, call_payload.
  by rewrite (in_param_strip _ _ Hin), (out_param_strip _ _ Hout),
    (payload_item_strip _ _ Hin), (payload_item_strip _ _ Hout).
Qed.

End wire_results.

Lemma X5_stub_ignores_tp_type_witness :
  emitted (H:=spec_libglibcodegen) "prefix" "Example" Examples.do_thing
  = emitted (H:=spec_libglibcodegen) "prefix" "Example" Examples.do_thing_annotated.
Proof.
  apply (X5_stub_ignores_tp_type (H:=spec_libglibcodegen)); [reflexivity|].
  repeat constructor.
Defined.

(** ** Calling the object again, and [types_to_gtypes] *)

Section object_results.
Context `{Libglibcodegen}.

(** X6. The two buffers are created in [__init__] and never emptied: when a
    call of the object has succeeded, having appended [hs] to the header
    buffer and [bs] to the body buffer, a second call of the same object
    succeeds as well, appends the same lines once more, and writes files
    that hold them twice. *)
Theorem X6_second_call self (fs : gmap string string) self1 fs1 :
  call self fs = Some (self1, fs1) ->
  exists hs bs,
    self1 = push self hs bs /\
    fs1 !! (basename self +:+ ".h") = Some (Py.join Py.nl (__header self ++ hs)) /\
    forall fs' : gmap string string,
      call self1 fs'
      = Some (push self1 hs bs,
              write_file (basename self +:+ ".c")
                (Py.join Py.nl (__body self ++ bs ++ bs))
                (write_file (basename self +:+ ".h")
                   (Py.join Py.nl (__header self ++ hs ++ hs)) fs')).
Proof.
  unfold call. rewrite call_emit_runs.
  destruct (call_text (dom self) (prefix_lc self) (basename self)) as [[hs bs]|] eqn:Ht;
    [|done].
  simpl. intros [= <- <-]. exists hs, bs. split; [done|]. split.
  - unfold write_file.
    rewrite lookup_insert_ne by (apply not_eq_sym, header_body_names_differ).
    by rewrite lookup_insert_eq.
  - intros fs'. rewrite call_emit_runs. cbn [dom prefix_lc basename push].
    rewrite Ht. simpl. by rewrite <-!app_assoc.
Qed.

Lemma types_to_gtypes_signal signal :
  mapM signal_tag (method_args signal) = types_to_gtypes (arg_types signal).
Proof.
  unfold types_to_gtypes, arg_types.
  induction (method_args signal) as [|a args IH]; [done|].
  rewrite fmap_cons. cbn [mapM]. rewrite IH. unfold signal_tag.
  by destruct (type_to_gtype (getAttribute a "type")).
Qed.

(** X7. The loop of [do_signal_add] computes what [types_to_gtypes], which
    the script defines and never calls, computes: the tags [do_signal_add]
    registers for a signal are [types_to_gtypes] of the wire types of its
    [arg] elements, one line per tag, in order, between the
    [dbus_g_proxy_add_signal] line and [G_TYPE_INVALID]; [do_signal_add]
    raises exactly when [types_to_gtypes] raises on these types, which is
    when the wire type of some [arg] element is missing from the mapping
    table. *)
Theorem X7_types_to_gtypes signal self :
  do_signal_add signal self
  = match types_to_gtypes (arg_types signal) with
    | Some gtypes =>
        Some ((), push self
                    (["  dbus_g_proxy_add_signal (proxy, " +:+ Py.dq
                        +:+ getAttribute signal "name" +:+ Py.dq +:+ ","] ++
                     ((fun gtype => "      " +:+ gtype +:+ ",") <$> gtypes) ++
                     ["      G_TYPE_INVALID);"])
                    [])
    | None => None
    end /\
  (do_signal_add signal self = None <-> types_to_gtypes (arg_types signal) = None) /\
  (do_signal_add signal self = None
   <-> Exists (fun arg => type_to_gtype (getAttribute arg "type") = None)
         (getElementsByTagName signal "arg")).
Proof.
  assert (do_signal_add signal self
          = match types_to_gtypes (arg_types signal) with
            | Some gtypes =>
                Some ((), push self
                            (["  dbus_g_proxy_add_signal (proxy, " +:+ Py.dq
                                +:+ getAttribute signal "name" +:+ Py.dq +:+ ","] ++
                             ((fun gtype => "      " +:+ gtype +:+ ",") <$> gtypes) ++
                             ["      G_TYPE_INVALID);"])
                            [])
            | None => None
            end) as Hrun.
  { rewrite do_signal_add_runs. unfold signal_text. rewrite types_to_gtypes_signal.
    by destruct (types_to_gtypes (arg_types signal)). }
  assert (do_signal_add signal self = None <-> types_to_gtypes (arg_types signal) = None)
    as Hnone.
  { rewrite Hrun. by destruct (types_to_gtypes (arg_types signal)). }
  split; [exact Hrun|]. split; [exact Hnone|].
  rewrite Hnone, <-types_to_gtypes_signal, eq_None_not_Some, mapM_is_Some.
  change (getElementsByTagName signal "arg") with (method_args signal).
  split.
  - intros Hn. apply not_Forall_Exists in Hn; [|apply _].
    eapply Exists_impl; [exact Hn|]. intros a Ha. cbv beta in Ha.
    unfold compose, signal_tag in Ha. rewrite fmap_is_Some in Ha.
    by apply eq_None_not_Some.
  - intros He Hf. apply Exists_exists in He as (a & Hin & Ha).
    rewrite Forall_forall in Hf. specialize (Hf a Hin).
    unfold compose, signal_tag in Hf. rewrite Ha in Hf. by destruct Hf.
Qed.

End object_results.

(** The object made for an empty document, called twice: the header file
    then holds the [#include] lines twice. *)
Lemma X6_second_call_witness :
  exists self1 fs1,
    call (H:=spec_libglibcodegen) (init (Document []) "prefix" "gen") ∅ = Some (self1, fs1) /\
    (snd <$> call (H:=spec_libglibcodegen) self1 fs1) ≫= (.!! "gen.h")
    = Some (Py.join Py.nl (header_prelude ++ header_prelude)).
Proof.
  eexists _, _. split; [vm_compute; reflexivity|].
  match goal with
  | |- (snd <$> call ?s ?f) ≫= _ = _ =>
      destruct (X6_second_call (H:=spec_libglibcodegen)
                  (init (Document []) "prefix" "gen") ∅ s f)
        as (hs & bs & Hself & _ & Hagain); [vm_compute; reflexivity|]
  end.
  rewrite Hagain. injection Hself as Hhs Hbs.
  cbn [app __header __body init] in Hhs, Hbs. subst hs bs.
  vm_compute. reflexivity.
Defined.

(** ** The order of the nodes in the document *)

Lemma filter_key_perm {A} (f : A -> string) (l l' : list A) (key : string) :
  l ≡ₚ l' -> NoDup (f <$> l) ->
  filter (fun x => f x = key) l = filter (fun x => f x = key) l'.
Proof.
  intros Hp Hnd.
  assert (forall k : list A, NoDup (f <$> k) ->
            length (filter (fun x => f x = key) k) <= 1) as Hshort.
  { induction k as [|x k IH]; intros Hk; [simpl; lia|].
    rewrite fmap_cons in Hk. apply NoDup_cons in Hk as [Hx Hk].
    rewrite filter_cons. destruct (decide (f x = key)) as [Hfx|Hfx]; [|by apply IH].
    assert (filter (fun y => f y = key) k = []) as ->; [|simpl; lia].
    destruct (filter (fun y => f y = key) k) as [|y r] eqn:Hf; [done|].
    assert (y ∈ filter (fun y => f y = key) k) as Hy by (rewrite Hf; left).
    apply list_elem_of_filter in Hy as [Hy Hin].
    destruct Hx. rewrite Hfx, <-Hy. apply list_elem_of_fmap. by exists y. }
  pose proof (Hshort l Hnd) as Hl.
  assert (filter (fun x => f x = key) l ≡ₚ filter (fun x => f x = key) l') as Hpf
    by (by rewrite Hp).
  destruct (filter (fun x => f x = key) l) as [|x [|y r]]; simpl in Hl; [| |lia].
  - by apply Permutation_nil_l in Hpf.
  - by apply Permutation_singleton_l in Hpf.
Qed.

(** X8. When the [node] elements of a document have pairwise different
    names, the order in which the document lists them does not matter: a
    document that lists the same nodes in another order gives the same two
    files.  ([cmp_by_name] is the comparison of the [name] attributes.) *)
Theorem X8_node_order_irrelevant `{Libglibcodegen} dom dom' prefix basename
    (fs : gmap string string) :
  getElementsByTagName dom' "node" ≡ₚ getElementsByTagName dom "node" ->
  NoDup (node_name <$> getElementsByTagName dom "node") ->
  main dom' prefix basename fs = main dom prefix basename fs.
Proof.
  intros Hp Hnd. rewrite !main_spec. unfold call_text.
  assert (sorted_ifaces dom' = sorted_ifaces dom) as ->; [|done].
  unfold sorted_ifaces.
  apply sorted_stable_unique; [apply list_sort_sorted..|].
  intros name. rewrite !list_sort_stable. symmetry. by apply filter_key_perm.
Qed.

Lemma X8_node_order_irrelevant_witness :
  main (H:=spec_libglibcodegen) Examples.mu_zeta_alpha "prefix" "gen" ∅
  = main (H:=spec_libglibcodegen) Examples.zeta_alpha_mu "prefix" "gen" ∅.
Proof.
  apply (X8_node_order_irrelevant (H:=spec_libglibcodegen)).
  - change (getElementsByTagName Examples.mu_zeta_alpha "node")
      with [Examples.iface_node "Mu" [Examples.method "Ping" []];
            Examples.iface_node "Zeta" [Examples.method "Ping" []];
            Examples.iface_node "Alpha" [Examples.method "Ping" []]].
    change (getElementsByTagName Examples.zeta_alpha_mu "node")
      with [Examples.iface_node "Zeta" [Examples.method "Ping" []];
            Examples.iface_node "Alpha" [Examples.method "Ping" []];
            Examples.iface_node "Mu" [Examples.method "Ping" []]].
    etrans; [apply Permutation_swap|]. apply Permutation_skip, Permutation_swap.
  - change (node_name <$> getElementsByTagName Examples.zeta_alpha_mu "node")
      with ["Zeta"; "Alpha"; "Mu"].
    apply (bool_decide_unpack _). vm_compute. exact I.
Defined.

(** ** The characters of the generated identifiers *)

Lemma lower_char_facts c :
  Py.is_upper (Py.lower_char c) = false /\
  Py.upper_char (Py.lower_char c) = Py.upper_char c /\
  Py.is_lower (Py.upper_char c) = false /\
  (Py.lower_char c = "/"%char -> c = "/"%char) /\
  (Py.upper_char c = "/"%char -> c = "/"%char).
Proof.
  destruct c as [[] [] [] [] [] [] [] []]; vm_compute; repeat split; congruence.
Qed.

Lemma map_chars_list f s :
  list_ascii_of_string (Py.map_chars f s) = f <$> list_ascii_of_string s.
Proof. induction s as [|c s IH]; simpl; [done|]. by rewrite IH. Qed.

Lemma remove_char_absent c s :
  Forall (fun d => d <> c) (list_ascii_of_string (Py.remove_char c s)).
Proof.
  induction s as [|d s IH]; simpl; [constructor|].
  destruct (Ascii.eqb_spec c d) as [->|Hne]; [done|].
  simpl. constructor; [congruence|done].
Qed.

(** X9. For a node whose [name] attribute is ASCII: the name
    [do_interface] gives the interface holds no ['/'].  The lowered form
    that enters the names of the registration function and of the stubs
    holds no ['/'] and no upper-case letter; the quark suffix
    [iface.lower().upper()] is the upper-cased name itself and holds no ['/']
    and no lower-case letter. *)
Theorem X9_interface_identifiers node :
  Forall (fun c => (nat_of_ascii c < 128)%nat)
    (list_ascii_of_string (getAttribute node "name")) ->
  let name := iface_name node in
  Forall (fun c => c <> "/"%char) (list_ascii_of_string name) /\
  Forall (fun c => c <> "/"%char /\ Py.is_upper c = false)
    (list_ascii_of_string (Py.lower name)) /\
  Py.upper (Py.lower name) = Py.upper name /\
  Forall (fun c => c <> "/"%char /\ Py.is_lower c = false)
    (list_ascii_of_string (Py.upper (Py.lower name))).
Proof.
  intros Hascii name.
  assert (Forall (fun c => c <> "/"%char) (list_ascii_of_string name)) as Hname
    by apply remove_char_absent.
  assert (Py.upper (Py.lower name) = Py.upper name) as Hup.
  { unfold Py.upper, Py.lower. induction name as [|c s IH]; simpl; [done|].
    destruct (lower_char_facts c) as (_ & -> & _).
    f_equal. apply IH. by inversion Hname. }
  split; [done|]. split; [|split; [done|]].
  - unfold Py.lower. rewrite map_chars_list. apply Forall_fmap.
    eapply Forall_impl; [exact Hname|]. intros c Hc. simpl.
    destruct (lower_char_facts c) as (Hu & _ & _ & Hs & _). split; [|done].
    intros Heq. by apply Hc, Hs.
  - rewrite Hup. unfold Py.upper. rewrite map_chars_list. apply Forall_fmap.
    eapply Forall_impl; [exact Hname|]. intros c Hc. simpl.
    destruct (lower_char_facts c) as (_ & _ & Hl & _ & Hs). split; [|done].
    intros Heq. by apply Hc, Hs.
Qed.

(** The node [/Channel_Type_Text] of the Telepathy specification: the
    interface is [Channel_Type_Text], its quark suffix [CHANNEL_TYPE_TEXT]. *)
Lemma X9_interface_identifiers_witness :
  iface_name (Examples.iface_node "/Channel_Type_Text" []) = "Channel_Type_Text" /\
  Py.upper (Py.lower (iface_name (Examples.iface_node "/Channel_Type_Text" [])))
  = "CHANNEL_TYPE_TEXT".
Proof.
  split; [vm_compute; reflexivity|].
  destruct (X9_interface_identifiers (Examples.iface_node "/Channel_Type_Text" []))
    as (_ & _ & Hup & _).
  - apply (bool_decide_unpack _). vm_compute. exact I.
  - rewrite Hup. vm_compute. reflexivity.
Defined.

(** * Results on the call channel example *)

Section callchannel_results.
Import CallChannel.
Context `{Farsight}.

(** X10. [get_codec_config] never returns [None].  For every media type
    other than video, audio or not, it returns the two SPEEX audio codecs
    (16000 then 8000) without calling [GetProtocol]; for video it calls
    [GetProtocol], raises what that raises, and otherwise returns H264,
    THEORA, H263, DV, JPEG, MPV in this order, all video codecs of clock rate
    0, with DV disabled and THEORA disabled exactly when the protocol is the
    string ["sip"]. *)
Theorem X10_get_codec_config (self : self_) (mtype : MediaType) :
  get_codec_config self mtype <> inr None /\
  (mtype <> MEDIA_TYPE_VIDEO ->
   get_codec_config self mtype
   = inr (Some [mkCodec CODEC_ID_ANY "SPEEX" MEDIA_TYPE_AUDIO 16000;
                mkCodec CODEC_ID_ANY "SPEEX" MEDIA_TYPE_AUDIO 8000])) /\
  (forall e, conn_GetProtocol self = inl e ->
     get_codec_config self MEDIA_TYPE_VIDEO = inl e) /\
  (forall protocol, conn_GetProtocol self = inr protocol ->
     exists codecs,
       get_codec_config self MEDIA_TYPE_VIDEO = inr (Some codecs) /\
       encoding_name <$> codecs = ["H264"; "THEORA"; "H263"; "DV"; "JPEG"; "MPV"] /\
       Forall (fun c => media_type c = MEDIA_TYPE_VIDEO /\ clock_rate c = 0%N) codecs /\
       Forall (fun c =>
                 codec_id c
                 = if decide (encoding_name c = "DV" \/
                              (encoding_name c = "THEORA" /\ protocol = "sip"))
                   then CODEC_ID_DISABLE else CODEC_ID_ANY) codecs).
Proof.
  unfold get_codec_config. split; [|split; [|split]].
  - destruct (decide (mtype = MEDIA_TYPE_VIDEO)); [|done].
    by destruct (conn_GetProtocol self).
  - intros Hm. by rewrite decide_False.
  - intros e He. by rewrite decide_True, He.
  - intros protocol Hp. rewrite decide_True, Hp by done.
    destruct (decide (protocol = "sip")) as [->|Hne]; eexists; (split; [done|]);
      (split; [done|]); (split; [repeat constructor|]);
      repeat (constructor;
                [cbn; case_decide as Hd;
                 [try done; by destruct Hd as [Hd|[Hd ?]]
                 |try done; exfalso; apply Hd; (by left) || (by right)]|]);
      constructor.
Qed.

Lemma get_codec_config_never_None (self : self_) (mtype : MediaType) :
  get_codec_config self mtype <> inr None.
Proof.
  unfold get_codec_config.
  destruct (decide (mtype = MEDIA_TYPE_VIDEO)); [|done].
  by destruct (conn_GetProtocol self).
Qed.

Lemma get_codec_config_not_video (self : self_) (mtype : MediaType) :
  mtype <> MEDIA_TYPE_VIDEO ->
  get_codec_config self mtype
  = inr (Some [mkCodec CODEC_ID_ANY "SPEEX" MEDIA_TYPE_AUDIO 16000;
               mkCodec CODEC_ID_ANY "SPEEX" MEDIA_TYPE_AUDIO 8000]).
Proof. intros Hm. unfold get_codec_config. by rewrite decide_False. Qed.

Lemma get_codec_config_call_result (self : self_) (mtype : MediaType) :
  (get_codec_config_call self mtype).2 = get_codec_config self mtype /\
  (get_codec_config_call self mtype).1
  = (if decide (mtype = MEDIA_TYPE_VIDEO) then [GetProtocol] else []).
Proof. unfold get_codec_config_call. by destruct (decide (mtype = MEDIA_TYPE_VIDEO)). Qed.

(** X11. [content_added] first reads the [sink-pad] and [media-type]
    properties of the content.  For a content that is neither audio nor
    video, it has set the SPEEX audio codec preferences on the content and
    connected the [src-pad-added] handler when [self.pipeline.add(src)] raises
    [UnboundLocalError] for [src]; nothing is added to the pipeline.  For a
    video content whose [GetProtocol] raises, the method raises right after
    that call: no preferences are set, no handler is connected, no element is
    made.  When the method returns, the content was audio or video, and after
    the reads (and [GetProtocol] for video) it has set the preferences,
    connected the handler, made exactly one live test source, added it to the
    pipeline, linked its [src] pad to the sink pad of the content and set it
    playing. *)
Theorem X11_content_added (self : self_) (content : content_) :
  let mtype := content_media_type content in
  let reads := [GetProperty "sink-pad"; GetProperty "media-type"] in
  (mtype <> MEDIA_TYPE_AUDIO -> mtype <> MEDIA_TYPE_VIDEO ->
   content_added self content
   = (reads ++
      [SetCodecPreferences
         [mkCodec CODEC_ID_ANY "SPEEX" MEDIA_TYPE_AUDIO 16000;
          mkCodec CODEC_ID_ANY "SPEEX" MEDIA_TYPE_AUDIO 8000];
       Connect "src-pad-added" "src_pad_added"],
      inl (UnboundLocalError "src"))) /\
  (mtype = MEDIA_TYPE_VIDEO -> forall e, conn_GetProtocol self = inl e ->
   content_added self content = (reads ++ [GetProtocol], inl e)) /\
  (forall t, content_added self content = (t, inr ()) ->
     (mtype = MEDIA_TYPE_AUDIO \/ mtype = MEDIA_TYPE_VIDEO) /\
     exists prefs factory,
       let src := element_factory_make factory in
       get_codec_config self mtype = inr (Some prefs) /\
       factory = (if decide (mtype = MEDIA_TYPE_AUDIO)
                  then "audiotestsrc" else "videotestsrc") /\
       t = reads ++
           (if decide (mtype = MEDIA_TYPE_VIDEO) then [GetProtocol] else []) ++
           [SetCodecPreferences prefs;
            Connect "src-pad-added" "src_pad_added";
            Make src;
            SetProperty src "is-live" true;
            PipelineAdd src;
            PadLink (get_pad src "src") (sink_pad content);
            SetState src "PLAYING"]).
Proof.
  intros mtype reads. unfold content_added. fold mtype. split; [|split].
  - intros Ha Hv. unfold get_codec_config_call.
    rewrite (get_codec_config_not_video self mtype Hv).
    rewrite !decide_False by done. reflexivity.
  - intros Hv e He. unfold get_codec_config_call, get_codec_config.
    rewrite !decide_True, He by done. reflexivity.
  - intros t Hrun.
    destruct (get_codec_config_call_result self mtype) as [Hres Htr].
    destruct (get_codec_config_call self mtype) as [tr res]. simpl in Hres, Htr.
    subst res tr.
    destruct (get_codec_config self mtype) as [e|[prefs|]] eqn:Hg;
      [by destruct (decide (mtype = MEDIA_TYPE_VIDEO))| |].
    + destruct (decide (mtype = MEDIA_TYPE_AUDIO)) as [Ha|Ha].
      * split; [by left|]. exists prefs, "audiotestsrc".
        split; [done|]. split; [done|].
        destruct (decide (mtype = MEDIA_TYPE_VIDEO)); by injection Hrun as <-.
      * destruct (decide (mtype = MEDIA_TYPE_VIDEO)) as [Hv|Hv]; [|done].
        split; [by right|]. exists prefs, "videotestsrc".
        split; [done|]. split; [done|]. by injection Hrun as <-.
    + by destruct (get_codec_config_never_None self mtype).
Qed.

End callchannel_results.

Section callchannel_callbacks.
Import CallChannel.
Context `{Farsight}.


Lemma deliver_all_app self cbs cbs' :
  deliver_all self (cbs ++ cbs')
  = let '(self1, t1) := deliver_all self cbs in
    let '(self2, t2) := deliver_all self1 cbs' in
    (self2, t1 ++ t2).
Proof.
  revert self. induction cbs as [|cb cbs IH]; intros self; simpl.
  - by destruct (deliver_all self cbs').
  - destruct (deliver self cb) as [self1 t]. rewrite IH.
    destruct (deliver_all self1 cbs) as [self2 t1].
    destruct (deliver_all self2 cbs') as [self3 t2]. by rewrite app_assoc.
Qed.

Lemma deliver_all_messages self (ms : list (string * (exn + unit))) :
  deliver_all self ((fun m => BusWatch m.1 m.2) <$> ms)
  = (self, match tfchannel self with
           | Some ch => (fun m => BusMessage ch m.1) <$> ms
           | None => []
           end).
Proof.
  induction ms as [|[m r] ms IH]; [by destruct (tfchannel self)|].
  rewrite fmap_cons. cbn [deliver_all deliver]. rewrite IH.
  unfold async_handler. destruct (tfchannel self) as [ch|]; [|done].
  by destruct r.
Qed.

(** X13. Bus messages reach the channel only once [tpfs_created] has run:
    while [self.tfchannel] is [None], [async_handler] makes no call and
    returns [True], and the message is dropped, not kept for later;
    [tpfs_created] connects the two signal handlers; every later message is
    passed to the channel's [bus_message], once and in order, whether these
    calls return or raise.  Once the channel is set, [async_handler] makes
    the one call, returns [True] when [bus_message] returns and raises what
    it raises. *)
Theorem X13_bus_messages (self : self_) (before after : list (string * (exn + unit)))
    (ch : string) :
  tfchannel self = None ->
  deliver_all self
    (((fun m => BusWatch m.1 m.2) <$> before) ++
     TpfsCreated ch :: ((fun m => BusWatch m.1 m.2) <$> after))
  = (mkSelf (conn_GetProtocol self) (Some ch),
     [Connect "fs-conference-add" "conference_added";
      Connect "content-added" "content_added"] ++
     ((fun m => BusMessage ch m.1) <$> after)) /\
  (forall message bus_message,
     async_handler self message bus_message = ([], inr true)) /\
  (forall message bus_message,
     async_handler (mkSelf (conn_GetProtocol self) (Some ch)) message bus_message
     = ([BusMessage ch message],
        match bus_message with
        | inl e => inl e
        | inr _ => inr true
        end)).
Proof.
  intros Hnone. split; [|split].
  - rewrite deliver_all_app, deliver_all_messages, Hnone.
    cbn [deliver_all deliver tpfs_created]. rewrite deliver_all_messages. reflexivity.
  - intros message bus_message. unfold async_handler. by rewrite Hnone.
  - intros message bus_message. unfold async_handler. cbn [tfchannel].
    by destruct bus_message as [e|[]].
Qed.

End callchannel_callbacks.

(** One message before the channel exists, then the channel, then a message
    on which [bus_message] raises and one on which it returns: the first is
    dropped, the other two are passed on. *)
Lemma X13_bus_messages_witness :
  (CallChannel.deliver_all (H:=farsight_values)
     (CallChannel.mkSelf (inr "sip") None)
     [CallChannel.BusWatch "early" (inr ());
      CallChannel.TpfsCreated "tf";
      CallChannel.BusWatch "late" (inl CallChannel.DBusException);
      CallChannel.BusWatch "last" (inr ())]).2
  = [CallChannel.Connect "fs-conference-add" "conference_added";
     CallChannel.Connect "content-added" "content_added";
     CallChannel.BusMessage "tf" "late";
     CallChannel.BusMessage "tf" "last"].
Proof.
  destruct (X13_bus_messages (H:=farsight_values)
              (CallChannel.mkSelf (inr "sip") None)
              [("early", inr ())]
              [("late", inl CallChannel.DBusException); ("last", inr ())]
              "tf" eq_refl)
    as [Hrun _].
  cbn [fmap list_fmap app fst snd] in Hrun. by rewrite Hrun.
Defined.

(** * The end of the two files *)

Lemma string_app_assoc (s1 s2 s3 : string) : (s1 +:+ s2) +:+ s3 = s1 +:+ s2 +:+ s3.
Proof.
  induction s1 as [|c s1 IH]; [done|].
  change (String c ((s1 +:+ s2) +:+ s3) = String c (s1 +:+ s2 +:+ s3)).
  by rewrite IH.
Qed.

Lemma join_snoc_blank (l : list string) :
  l <> [] -> Py.join Py.nl (l ++ [""]) = Py.join Py.nl l +:+ Py.nl.
Proof.
  induction l as [|x [|y r] IH]; intros Hne; [done| |].
  - reflexivity.
  - change (Py.join Py.nl ((x :: y :: r) ++ [""]))
      with (x +:+ Py.nl +:+ Py.join Py.nl ((y :: r) ++ [""])).
    rewrite IH by done.
    change (Py.join Py.nl (x :: y :: r)) with (x +:+ Py.nl +:+ Py.join Py.nl (y :: r)).
    by rewrite !string_app_assoc.
Qed.

Lemma blank_end_app (l1 l2 : list string) :
  last l1 = None \/ last l1 = Some "" ->
  last l2 = None \/ last l2 = Some "" ->
  last (l1 ++ l2) = None \/ last (l1 ++ l2) = Some "".
Proof. rewrite last_app. intros [->| ->] [->| ->]; auto. Qed.

Lemma blank_end_concat (ls : list (list string)) :
  Forall (fun l => last l = None \/ last l = Some "") ls ->
  last (concat ls) = None \/ last (concat ls) = Some "".
Proof.
  induction 1 as [|l ls Hl _ IH]; simpl; [by left|]. by apply blank_end_app.
Qed.

Section file_end_results.
Context `{Libglibcodegen}.

Lemma method_texts_blank_end pfx iface methods stubs :
  mapM (method_text pfx iface) methods = Some stubs ->
  Forall (fun l => last l = None \/ last l = Some "") stubs.*1 /\
  Forall (fun l => last l = None \/ last l = Some "") stubs.*2.
Proof.
  intros Hm%mapM_Some. induction Hm as [|m [decl defn] ms stubs Hm _ [IH1 IH2]].
  - split; constructor.
  - unfold method_text in Hm. destruct (collect_args m) as [locals|]; [|done].
    injection Hm as <- <-. rewrite !fmap_cons. cbn [fst snd].
    split; (constructor; [right|done]).
    + unfold method_decl. by rewrite !last_app.
    + unfold method_defn. by rewrite !last_app.
Qed.

Lemma interface_texts_blank_end pfx nodes texts :
  mapM (interface_text pfx) nodes = Some texts ->
  Forall (fun l => last l = None \/ last l = Some "") texts.*1 /\
  Forall (fun l => last l = None \/ last l = Some "") texts.*2.
Proof.
  intros Hm%mapM_Some. induction Hm as [|n [hs bs] ns texts Hn _ [IH1 IH2]].
  - split; constructor.
  - unfold interface_text in Hn. case_bool_decide; [|done].
    destruct (mapM signal_text _) as [sigs|]; [|done].
    destruct (mapM (method_text _ _) _) as [stubs|] eqn:Hs; [|done].
    injection Hn as <- <-. rewrite !fmap_cons. cbn [fst snd].
    destruct (method_texts_blank_end _ _ _ _ Hs) as [Hd Hb].
    split; (constructor; [|done]).
    + apply (blank_end_app (registration_block pfx (iface_name n) sigs)
               (concat stubs.*1)); [|by apply blank_end_concat].
      right. unfold registration_block. by rewrite !last_app.
    + by apply blank_end_concat.
Qed.

(** X14. Both files of a successful run end with a newline: the last line
    appended to either buffer is always the empty line, and the buffers are
    joined with newlines. *)
Theorem X14_files_end_with_newline dom prefix basename (fs fs' : gmap string string) :
  main dom prefix basename fs = Some fs' ->
  exists header_text body_text,
    fs' !! (basename +:+ ".h") = Some (header_text +:+ Py.nl) /\
    fs' !! (basename +:+ ".c") = Some (body_text +:+ Py.nl).
Proof.
  rewrite main_spec. unfold call_text. intros Hrun.
  destruct (mapM (interface_text (Py.lower prefix)) (sorted_ifaces dom))
    as [texts|] eqn:Ht; [|done].
  injection Hrun as <-. cbn [fst snd]. unfold write_file.
  destruct (interface_texts_blank_end _ _ _ Ht) as [Hh Hb].
  assert (forall (x : string) (first second rest : list string),
            last rest = None \/ last rest = Some "" -> last second = Some "" ->
            exists text,
              Py.join Py.nl ((x :: first) ++ second ++ rest) = text +:+ Py.nl)
    as Hend.
  { intros x first0 second rest Hrest Hsecond. set (first := x :: first0).
    assert (last (first ++ second ++ rest) = Some "") as Hl.
    { rewrite !last_app. destruct Hrest as [->| ->]; [by rewrite Hsecond|done]. }
    apply last_Some in Hl as [l' Hl]. rewrite Hl.
    exists (Py.join Py.nl l'). apply join_snoc_blank.
    intros ->. apply (f_equal length) in Hl. rewrite !length_app in Hl.
    apply last_Some in Hsecond as [s' ->]. rewrite length_app in Hl. simpl in Hl.
    subst first. simpl in Hl. lia. }
  destruct (Hend "#include <dbus/dbus-glib.h>" ["#include <telepathy-glib/proxy.h>"]
              ["#include <telepathy-glib/interfaces.h>"; ""] (concat texts.*1))
    as [ht Hht]; [by apply blank_end_concat|done|].
  destruct (Hend ("#include " +:+ Py.dq +:+ basename +:+ ".h" +:+ Py.dq) [] [""]
              (concat texts.*2)) as [bt Hbt]; [by apply blank_end_concat|done|].
  exists ht, bt. split.
  - rewrite lookup_insert_ne by (apply not_eq_sym, header_body_names_differ).
    rewrite lookup_insert_eq. f_equal. exact Hht.
  - rewrite lookup_insert_eq. f_equal. exact Hbt.
Qed.

End file_end_results.

Lemma X14_files_end_with_newline_witness :
  exists header_text body_text,
    main (H:=spec_libglibcodegen) Examples.example_schema "prefix" "gen" ∅
      ≫= (.!! "gen.h") = Some (header_text +:+ Py.nl) /\
    main (H:=spec_libglibcodegen) Examples.example_schema "prefix" "gen" ∅
      ≫= (.!! "gen.c") = Some (body_text +:+ Py.nl).
Proof.
  destruct (main (H:=spec_libglibcodegen) Examples.example_schema "prefix" "gen" ∅)
    as [fs'|] eqn:Hrun; [|by vm_compute in Hrun].
  destruct (X14_files_end_with_newline (H:=spec_libglibcodegen) _ _ _ _ _ Hrun)
    as (ht & bt & Hh & Hb).
  exists ht, bt. by split.
Defined.
